(** * ParkFasto backend: the parking controller

    A shallow embedding of [src/controller/parking.controller.js] and of the
    routes that reach it.  The controller is a set of request handlers over a
    document store holding parking lots, parking sessions and notifications.

    Conventions of the embedding:
    - a handler is a function from the store to the new store and the
      response; [new Date()] is the argument [now] (milliseconds since the
      epoch), read once per request;
    - queries and updates of the document store do not fail; creating a
      session fails when one of its dates is an Invalid Date, which the
      schema does not cast; the other exception a handler can raise is a
      JavaScript [TypeError] of its own; the [catch] clause forwards both
      to [next(error)];
    - object ids that reach the controller are well formed, so they are
      values of an id type rather than arbitrary JSON;
    - the fields of a request body on which the controller itself performs
      JavaScript conversions ([Number(slots)], [!startTime],
      [new Date(startTime)]) are JSON values, with numbers as exact
      rationals extended with NaN and the two infinities. *)

From Stdlib Require Import ZArith QArith Qround Qabs Lia.
From stdpp Require Import base option list gmap fin_maps strings pretty sorting.

(** ** JavaScript values *)

Inductive jsnum :=
| Num (q : Q)
| NaN
| Infinity (negative : bool).

(** A JSON value of a request body.  An array or an object is carried with
    the string its [ToPrimitive] conversion yields, which is all that
    [Number] and [Date] look at. *)
Inductive jsval :=
| JUndefined
| JNull
| JBool (b : bool)
| JNum (n : jsnum)
| JStr (s : string)
| JObj (prim : string).

(** A [Date] object: its time value is an integral number of milliseconds
    or NaN. *)
Inductive jsdate :=
| DateMs (t : Z)
| InvalidDate.

(** A number known to be integral or NaN: differences of time values, hour
    counts and amounts. *)
Inductive intnum :=
| IntNum (z : Z)
| IntNaN.

Definition intnum_map (f : Z → Z) (n : intnum) : intnum :=
  match n with
  | IntNum z => IntNum (f z)
  | IntNaN => IntNaN
  end.

(** [ToBoolean] *)
Definition truthy (v : jsval) : bool :=
  match v with
  | JUndefined | JNull => false
  | JBool b => b
  | JNum (Num q) => negb (Qnum q =? 0)%Z
  | JNum NaN => false
  | JNum (Infinity _) => true
  | JStr s => negb (String.eqb s "")
  | JObj _ => true
  end.

(** [Number.isInteger] *)
Definition isInteger (n : jsnum) : bool :=
  match n with
  | Num q => (Z.rem (Qnum q) (Zpos (Qden q)) =? 0)%Z
  | _ => false
  end.

(** [a < b] on numbers: false as soon as one side is NaN. *)
Definition js_lt (a b : jsnum) : bool :=
  match a, b with
  | NaN, _ | _, NaN => false
  | Num x, Num y => (Qnum x * Zpos (Qden y) <? Qnum y * Zpos (Qden x))%Z
  | Infinity true, Infinity true => false
  | Infinity true, _ => true
  | _, Infinity true => false
  | Infinity false, _ => false
  | Num _, Infinity false => true
  end.

(** The value of a number that passed [Number.isInteger]. *)
Definition int_value (n : jsnum) : Z :=
  match n with
  | Num q => Z.quot (Qnum q) (Zpos (Qden q))
  | _ => 0%Z
  end.

(** [TimeClip] *)
Definition TimeClip (n : jsnum) : jsdate :=
  match n with
  | Num q =>
      if Qle_bool (Qabs q) (inject_Z 8640000000000000)
      then DateMs (Z.quot (Qnum q) (Zpos (Qden q)))
      else InvalidDate
  | _ => InvalidDate
  end.

(** [a - b] on two dates *)
Definition date_diff (a b : jsdate) : intnum :=
  match a, b with
  | DateMs x, DateMs y => IntNum (x - y)
  | _, _ => IntNaN
  end.

(** [`${n}`] for an integral number or NaN (plain decimal digits, which is
    what the engine prints below 10^21) *)
Definition Number_toString (n : intnum) : string :=
  match n with
  | IntNum z => pretty z
  | IntNaN => "NaN"
  end.

(** [s || dflt] on strings *)
Definition str_or (s : option string) (dflt : string) : string :=
  match s with
  | Some x => if String.eqb x "" then dflt else x
  | None => dflt
  end.

Section Builtins.
(** The two string grammars of the language are left to the engine:
    [StringToNumber] and [Date.parse]. *)
Variable StringToNumber : string → jsnum.
Variable Date_parse : string → jsdate.

(** [Number(v)] *)
Definition Number (v : jsval) : jsnum :=
  match v with
  | JUndefined => NaN
  | JNull => Num 0
  | JBool b => Num (if b then 1 else 0)
  | JNum n => n
  | JStr s => StringToNumber s
  | JObj s => StringToNumber s
  end.

(** [new Date(v)] *)
Definition new_Date (v : jsval) : jsdate :=
  match v with
  | JStr s => Date_parse s
  | JObj s => Date_parse s
  | _ => TimeClip (Number v)
  end.
End Builtins.

(** ** Documents *)

Abbreviation oid := nat.

Inductive SessionStatus := booked | active | completed | canceled.

Global Instance SessionStatus_eq_dec : EqDecision SessionStatus.
Proof. solve_decision. Defined.

(** Modelled from the spec: the ParkingLot schema ([models/ParkingLot.model]
    is not among the sources).  Capacity and occupancy are integers, the rate
    is non-negative, the status and the type are strings. *)
Record ParkingLot := mkLot {
  lot_name : string;
  totalSpots : Z;
  occupiedSpots : Z;
  lot_status : string;
  pricePerHour : N;
  lot_type : string
}.

(** Modelled from the spec: the ParkingSession schema
    ([models/ParkingSession.model] is not among the sources).  A session is
    identified by its position in the collection, which only ever grows. *)
Record ParkingSession := mkSession {
  user : oid;
  parkingLot : oid;
  vehicleType : option string;
  startTime : jsdate;
  endTime : option jsdate;
  totalAmount : option intnum;
  slots : Z;
  status : SessionStatus;
  createdAt : Z
}.

Record Notification := mkNotification {
  n_user : oid;
  n_type : string;
  n_title : string;
  n_message : string;
  n_parkingLot : option oid;
  n_session : nat
}.

Record db := mkDb {
  lots : gmap oid ParkingLot;
  sessions : list ParkingSession;
  notifications : list Notification
}.

Inductive error :=
| TypeError (msg : string)
| ValidationError (msg : string).

(** What a handler answers: [res.status(code).json({success, message, data})]
    or [next(error)]. *)
Inductive response :=
| Json (code : nat) (success : bool) (message : option string)
       (data : option (nat * ParkingSession))
| NextError (e : error).

(** ** The store *)

Definition set_lots (m : gmap oid ParkingLot) (d : db) : db :=
  mkDb m (sessions d) (notifications d).

Definition set_sessions (l : list ParkingSession) (d : db) : db :=
  mkDb (lots d) l (notifications d).

Definition valid_date (t : jsdate) : bool :=
  match t with
  | DateMs _ => true
  | InvalidDate => false
  end.

(** Modelled from the spec: [startTime] and [endTime] are dates in the
    ParkingSession schema ([models/ParkingSession.model] is not among the
    sources), and an Invalid Date is not cast to a date: a document that
    holds one fails validation. *)
Definition castable (s : ParkingSession) : bool :=
  valid_date (startTime s) && from_option valid_date true (endTime s).

Definition validation_error : error :=
  ValidationError "ParkingSession validation failed".

(** [ParkingSession.create(doc)]: a document that fails validation is
    rejected and nothing is written; otherwise the new document goes last
    and its id is its position. *)
Definition ParkingSession_create (s : ParkingSession) (d : db)
    : error + db * nat :=
  if castable s
  then inr (set_sessions (sessions d ++ [s]) d, length (sessions d))
  else inl validation_error.

(** [session.save()] *)
Definition session_save (i : nat) (s : ParkingSession) (d : db) : db :=
  set_sessions (<[i := s]> (sessions d)) d.

(** [Notification.create(doc)] *)
Definition Notification_create (n : Notification) (d : db) : db :=
  mkDb (lots d) (sessions d) (notifications d ++ [n]).

(** [.populate("parkingLot")]: the referenced lot, or null. *)
Definition populate (s : ParkingSession) (d : db) : option ParkingLot :=
  lots d !! parkingLot s.

(** The three session filters of the controller. *)
Definition active_of (u : oid) (s : ParkingSession) : Prop :=
  user s = u ∧ status s = active.

Definition active_at (u l : oid) (s : ParkingSession) : Prop :=
  user s = u ∧ parkingLot s = l ∧ status s = active.

Definition booked_at (u l : oid) (s : ParkingSession) : Prop :=
  user s = u ∧ parkingLot s = l ∧ status s = booked.

Global Instance active_of_dec u s : Decision (active_of u s).
Proof. unfold active_of. apply _. Defined.

Global Instance active_at_dec u l s : Decision (active_at u l s).
Proof. unfold active_at. apply _. Defined.

Global Instance booked_at_dec u l s : Decision (booked_at u l s).
Proof. unfold booked_at. apply _. Defined.

(** [findOne(filter).sort({ createdAt: -1 })]: among the documents that
    match, one with the greatest creation time; [i] is the position of the
    head of [l]. *)
Fixpoint findLatest (P : ParkingSession → Prop) `{!∀ s, Decision (P s)}
    (i : nat) (l : list ParkingSession) : option (nat * ParkingSession) :=
  match l with
  | [] => None
  | s :: l' =>
      let rest := findLatest P (S i) l' in
      if decide (P s) then
        match rest with
        | Some (j, s') =>
            if (createdAt s <? createdAt s')%Z then Some (j, s') else Some (i, s)
        | None => Some (i, s)
        end
      else rest
  end.

(** ** The controller *)

Definition resolveLotStatus (occupiedSpots totalSpots : Z) : string :=
  if (occupiedSpots >=? totalSpots)%Z then "full" else "available".

Definition inc_occupiedSpots (delta : Z) (l : ParkingLot) : ParkingLot :=
  mkLot (lot_name l) (totalSpots l) (occupiedSpots l + delta) (lot_status l)
        (pricePerHour l) (lot_type l).

Definition set_lot_status (st : string) (l : ParkingLot) : ParkingLot :=
  mkLot (lot_name l) (totalSpots l) (occupiedSpots l) st
        (pricePerHour l) (lot_type l).

Definition syncLotStatus (parkingLotId : oid) (occupiedDelta : Z) (d : db)
    : db * option ParkingLot :=
  match lots d !! parkingLotId with
  | None => (d, None)
  | Some l =>
      let updatedLot := inc_occupiedSpots occupiedDelta l in
      let d1 := set_lots (<[parkingLotId := updatedLot]> (lots d)) d in
      let newStatus :=
        resolveLotStatus (occupiedSpots updatedLot) (totalSpots updatedLot) in
      if String.eqb (lot_status updatedLot) newStatus
      then (d1, Some updatedLot)
      else (set_lots (alter (set_lot_status newStatus) parkingLotId (lots d1)) d1,
            Some updatedLot)
  end.

(** Modelled from the spec: the defaults of the ParkingSession schema, which
    [models/ParkingSession.model] would give.  A document created without
    them is active, holds one slot and starts now. *)
Definition schemaSession (now : Z) (u l : oid) (vt : option string)
    : ParkingSession :=
  {| user := u; parkingLot := l; vehicleType := vt;
     startTime := DateMs now; endTime := None; totalAmount := None;
     slots := 1; status := active; createdAt := now |}.

Definition activate (now : Z) (s : ParkingSession) : ParkingSession :=
  {| user := user s; parkingLot := parkingLot s; vehicleType := vehicleType s;
     startTime := DateMs now; endTime := endTime s;
     totalAmount := totalAmount s; slots := slots s; status := active;
     createdAt := createdAt s |}.

Definition settle (now : Z) (amount : intnum) (s : ParkingSession)
    : ParkingSession :=
  {| user := user s; parkingLot := parkingLot s; vehicleType := vehicleType s;
     startTime := startTime s; endTime := Some (DateMs now);
     totalAmount := Some amount; slots := slots s; status := completed;
     createdAt := createdAt s |}.

Definition cancel (now : Z) (s : ParkingSession) : ParkingSession :=
  {| user := user s; parkingLot := parkingLot s; vehicleType := vehicleType s;
     startTime := startTime s; endTime := Some (DateMs now);
     totalAmount := totalAmount s; slots := slots s; status := canceled;
     createdAt := createdAt s |}.

(** [x || dflt] on a stored number *)
Definition num_or (x dflt : Z) : Z := if (x =? 0)%Z then dflt else x.

(** [Math.max(1, Number(session.slots) || 1)] *)
Definition slotsToRelease (s : ParkingSession) : Z :=
  Z.max 1 (num_or (slots s) 1).

Definition ms_per_hour : Z := 1000 * 60 * 60.

(** [Math.max(1, Math.ceil((endTime - startTime) / (1000 * 60 * 60)))] *)
Definition durationHours (endT startT : jsdate) : intnum :=
  intnum_map
    (λ ms, Z.max 1 (Qceiling (inject_Z ms / inject_Z ms_per_hour)))
    (date_diff endT startT).

(** [durationHours * session.parkingLot.pricePerHour] *)
Definition computeCharge (endT startT : jsdate) (rate : N) : intnum :=
  intnum_map (λ h, h * Z.of_N rate)%Z (durationHours endT startT).

(** *** guardEntry *)

Definition checkin_notification (userId parkingLotId : oid)
    (lot : option ParkingLot) (sid : nat) : Notification :=
  {| n_user := userId; n_type := "checkin"; n_title := "Check-in Successful";
     n_message := "Your vehicle check-in was recorded at "
                  +:+ str_or (lot_name <$> lot) "the parking lot" +:+ ".";
     n_parkingLot := Some parkingLotId; n_session := sid |}.

Definition guardEntry (userId parkingLotId : oid) (now : Z) (d : db)
    : db * response :=
  let lot := lots d !! parkingLotId in
  let checked_in (d1 : db) (sid : nat) (session : ParkingSession) :=
    (Notification_create
       (checkin_notification userId parkingLotId lot sid) d1,
     Json 200 true (Some "Entry successful") (Some (sid, session))) in
  match findLatest (booked_at userId parkingLotId) 0 (sessions d) with
  | None =>
      let session := activate now (schemaSession now userId parkingLotId None) in
      match ParkingSession_create session d with
      | inl e => (d, NextError e)
      | inr (d0, sid) =>
          checked_in (syncLotStatus parkingLotId 1 d0).1 sid session
      end
  | Some (i, booking) =>
      let session := activate now booking in
      checked_in (session_save i session d) i session
  end.

(** *** guardExit *)

Definition checkout_notification (userId parkingLotId : oid)
    (lot : option ParkingLot) (amount : intnum) (sid : nat) : Notification :=
  {| n_user := userId; n_type := "checkout"; n_title := "Check-out Successful";
     n_message := "Your parking session was completed at "
                  +:+ str_or (lot_name <$> lot) "the parking lot"
                  +:+ ". Total: NPR " +:+ Number_toString amount +:+ ".";
     n_parkingLot := Some parkingLotId; n_session := sid |}.

Definition null_deref : error :=
  TypeError "Cannot read properties of null".

Definition guardExit (userId parkingLotId : oid) (now : Z) (d : db)
    : db * response :=
  match list_find (active_at userId parkingLotId) (sessions d) with
  | None =>
      (d, Json 404 false (Some "No active session found for this user") None)
  | Some (i, session) =>
      let endT := DateMs now in
      match populate session d with
      | None => (d, NextError null_deref)
      | Some lot =>
          let amount := computeCharge endT (startTime session) (pricePerHour lot) in
          let session' := settle now amount session in
          let d1 := session_save i session' d in
          let d2 := (syncLotStatus parkingLotId (- slotsToRelease session') d1).1 in
          let d3 :=
            Notification_create
              (checkout_notification userId parkingLotId (Some lot) amount i) d2 in
          (d3, Json 200 true (Some "Exit successful") (Some (i, session')))
      end
  end.

(** *** startSession *)

Definition startSession (u parkingLotId : oid) (vt : option string)
    (now : Z) (d : db) : db * response :=
  match list_find (active_of u) (sessions d) with
  | Some _ =>
      (d, Json 400 false (Some "User already has an active session") None)
  | None =>
      let session := schemaSession now u parkingLotId vt in
      match ParkingSession_create session d with
      | inl e => (d, NextError e)
      | inr (d0, sid) =>
          let d1 := (syncLotStatus parkingLotId 1 d0).1 in
          (d1, Json 201 true None (Some (sid, session)))
      end
  end.

(** *** bookParking *)

Record BookBody := mkBookBody {
  body_parkingLotId : option oid;
  body_slots : jsval;
  body_startTime : jsval;
  body_endTime : jsval;
  body_vehicleType : jsval
}.

Definition required_fields : string :=
  "parkingLotId, startTime and endTime are required".

Definition bad_slots : string := "slots must be a positive whole number".

Section BookParking.
Variable StringToNumber : string → jsnum.
Variable Date_parse : string → jsdate.

(** [const { slots = 1 } = req.body; Number(slots)] *)
Definition requestedSlots (b : BookBody) : jsnum :=
  Number StringToNumber
    match body_slots b with
    | JUndefined => JNum (Num 1)
    | v => v
    end.

Definition bookParking (u : oid) (b : BookBody) (now : Z) (d : db)
    : db * response :=
  match body_parkingLotId b with
  | None => (d, Json 400 false (Some required_fields) None)
  | Some parkingLotId =>
      if negb (truthy (body_startTime b)) || negb (truthy (body_endTime b))
      then (d, Json 400 false (Some required_fields) None)
      else if negb (isInteger (requestedSlots b))
              || js_lt (requestedSlots b) (Num 1)
      then (d, Json 400 false (Some bad_slots) None)
      else
        match lots d !! parkingLotId with
        | None => (d, Json 404 false (Some "Parking lot not found") None)
        | Some lot =>
            let available := (totalSpots lot - num_or (occupiedSpots lot) 0)%Z in
            if js_lt (Num (inject_Z available)) (requestedSlots b)
            then (d, Json 400 false
                       (Some "Not enough available slots for requested booking")
                       None)
            else
              let session :=
                {| user := u; parkingLot := parkingLotId;
                   vehicleType :=
                     Some (if String.eqb (lot_type lot) "bike"
                           then "bike" else "car");
                   startTime := new_Date StringToNumber Date_parse (body_startTime b);
                   endTime :=
                     Some (new_Date StringToNumber Date_parse (body_endTime b));
                   totalAmount := None;
                   slots := int_value (requestedSlots b);
                   status := booked; createdAt := now |} in
              match ParkingSession_create session d with
              | inl e => (d, NextError e)
              | inr (d0, sid) =>
                  let d1 :=
                    (syncLotStatus parkingLotId
                       (int_value (requestedSlots b)) d0).1 in
                  (d1, Json 201 true None (Some (sid, session)))
              end
        end
  end.
End BookParking.

(** *** cancelBooking *)

Definition cancel_notification (u : oid) (lotRef : option oid)
    (lot : option ParkingLot) (sid : nat) : Notification :=
  {| n_user := u; n_type := "booking"; n_title := "Booking Canceled";
     n_message := "Your booking at "
                  +:+ str_or (lot_name <$> lot) "the parking lot"
                  +:+ " was canceled.";
     n_parkingLot := lotRef; n_session := sid |}.

Definition cancelBooking (u : oid) (bookingId : nat) (now : Z) (d : db)
    : db * response :=
  let not_found :=
    (d, Json 404 false (Some "Booked session not found or cannot be canceled")
          None) in
  match sessions d !! bookingId with
  | None => not_found
  | Some session =>
      if decide (user session = u ∧ status session = booked) then
        let lot := populate session d in
        let session' := cancel now session in
        let d1 := session_save bookingId session' d in
        (* [session.parkingLot?._id || session.parkingLot]: the id of the
           populated lot, or null when there is none, and
           [findByIdAndUpdate(null, ...)] finds nothing *)
        let lotRef := (λ _, parkingLot session) <$> lot in
        let d2 :=
          match lotRef with
          | Some id => (syncLotStatus id (- slotsToRelease session') d1).1
          | None => d1
          end in
        let d3 :=
          Notification_create (cancel_notification u lotRef lot bookingId) d2 in
        (d3, Json 200 true None (Some (bookingId, session')))
      else not_found
  end.

(** *** completeSession *)

Definition completeSession (u : oid) (now : Z) (d : db) : db * response :=
  match list_find (active_of u) (sessions d) with
  | None => (d, Json 404 false (Some "No active session found") None)
  | Some (i, session) =>
      let endT := DateMs now in
      match populate session d with
      | None => (d, NextError null_deref)
      | Some lot =>
          let amount := computeCharge endT (startTime session) (pricePerHour lot) in
          let session' := settle now amount session in
          let d1 := session_save i session' d in
          let d2 :=
            (syncLotStatus (parkingLot session) (- slotsToRelease session') d1).1 in
          (d2, Json 200 true None (Some (i, session')))
      end
  end.

(** ** The routes that change the store *)

Inductive request :=
| StartSession (u parkingLotId : oid) (vt : option string)
| BookParking (u : oid) (b : BookBody)
| GuardEntry (userId parkingLotId : oid)
| GuardExit (userId parkingLotId : oid)
| CancelBooking (u : oid) (bookingId : nat)
| CompleteSession (u : oid).

Section Router.
Variable StringToNumber : string → jsnum.
Variable Date_parse : string → jsdate.

Definition handle (r : request) (now : Z) (d : db) : db * response :=
  match r with
  | StartSession u l vt => startSession u l vt now d
  | BookParking u b => bookParking StringToNumber Date_parse u b now d
  | GuardEntry u l => guardEntry u l now d
  | GuardExit u l => guardExit u l now d
  | CancelBooking u i => cancelBooking u i now d
  | CompleteSession u => completeSession u now d
  end.

(** A sequence of requests, each with the time at which it is served. *)
Fixpoint run (reqs : list (request * Z)) (d : db) : db :=
  match reqs with
  | [] => d
  | (r, now) :: rest => run rest (handle r now d).1
  end.
End Router.

(** ** Reading a response *)

Definition res_code (r : response) : option nat :=
  match r with
  | Json c _ _ _ => Some c
  | NextError _ => None
  end.

Definition succeeded (r : response) : bool :=
  match r with
  | Json _ ok _ _ => ok
  | NextError _ => false
  end.

Definition res_data (r : response) : option (nat * ParkingSession) :=
  match r with
  | Json _ _ _ data => data
  | NextError _ => None
  end.

(** The occupancy counter of a lot, when the lot exists. *)
Definition occupancy (d : db) (l : oid) : option Z :=
  occupiedSpots <$> lots d !! l.

(** What one synchronisation leaves in a lot. *)
Definition synced (delta : Z) (l : ParkingLot) : ParkingLot :=
  set_lot_status
    (resolveLotStatus (occupiedSpots l + delta) (totalSpots l))
    (inc_occupiedSpots delta l).

(** ** A small store to run the handlers on *)

Module Sample.

Definition no_number (_ : string) : jsnum := NaN.

Definition no_date (_ : string) : jsdate := InvalidDate.

(** One lot, with id 7: two spots, none taken, 100 an hour. *)
Definition lot : ParkingLot :=
  mkLot "Durbar Marg" 2 0 "available" 100 "car".

Definition store : db := mkDb {[ 7 := lot ]} [] [].

(** Two slots at lot 7, from a client that also sends a vehicle type. *)
Definition booking : BookBody :=
  mkBookBody (Some 7) (JNum (Num 2))
    (JNum (Num (inject_Z 1767261600000)))
    (JNum (Num (inject_Z 1767268800000)))
    (JStr "bike").


(** One slot at lot 7, for a window that is written but is no date. *)
Definition no_dates : BookBody :=
  mkBookBody (Some 7) (JNum (Num 1)) (JStr "garbage") (JStr "also garbage")
    JUndefined.


(** User 1 has booked. *)
Definition booked : db :=
  (bookParking no_number no_date 1 booking 500 store).1.

(** User 1 has walked in at time 1000000. *)
Definition parked : db := (guardEntry 1 7 1000000 store).1.

(** ... and leaves 45 minutes later. *)
Definition settled : db * response := completeSession 1 3700000 parked.

(** User 1 is let in a second time before leaving. *)
Definition parked_twice : db := (guardEntry 1 7 2000000 parked).1.

(** User 1 starts a session at lot 99, which does not exist. *)
Definition orphaned : db := (startSession 1 99 None 1000 store).1.

End Sample.

(** ** The routes that only read *)

(** A session as the read routes return it: its id, the document and the
    populated lot. *)
Definition populated (d : db) (i : nat) (s : ParkingSession)
    : nat * ParkingSession * option ParkingLot :=
  (i, s, populate s d).

(** [getActiveSession]: answers 200 with the caller's active session, or
    with null. *)
Definition getActiveSession (u : oid) (d : db)
    : option (nat * ParkingSession * option ParkingLot) :=
  (λ p, populated d p.1 p.2) <$> list_find (active_of u) (sessions d).

(** [.sort({ createdAt: -1 })] *)
Definition newer_first (a b : nat * ParkingSession * option ParkingLot)
    : Prop :=
  (createdAt b.1.2 ≤ createdAt a.1.2)%Z.

Global Instance newer_first_dec a b : Decision (newer_first a b).
Proof. unfold newer_first. apply _. Defined.

(** [getUserBookings]: answers 200 with the caller's sessions, lots joined,
    newest first. *)
Definition getUserBookings (u : oid) (d : db)
    : list (nat * ParkingSession * option ParkingLot) :=
  merge_sort newer_first
    (filter (λ p, user p.1.2 = u) (imap (populated d) (sessions d))).

(** ** What a request writes *)

(** A session that holds slots: booked or active. *)
Definition is_open (s : ParkingSession) : Prop :=
  status s = booked ∨ status s = active.

Global Instance is_open_dec s : Decision (is_open s).
Proof. unfold is_open. apply _. Defined.

(** The fields of a session that no handler assigns after creation. *)
Definition same_identity (s s' : ParkingSession) : Prop :=
  user s' = user s ∧ parkingLot s' = parkingLot s
  ∧ vehicleType s' = vehicleType s ∧ slots s' = slots s
  ∧ createdAt s' = createdAt s.

(** The life cycle of a session. *)
Inductive transition : SessionStatus → SessionStatus → Prop :=
| transition_activate : transition booked active
| transition_cancel : transition booked canceled
| transition_complete : transition active completed.

(** The writes of one request: nothing; a new open session whose slots are
    added to its lot; a booking that becomes active; an open session that
    is closed and whose slots are given back to its lot. *)
Inductive effect (d d' : db) : Prop :=
| effect_none :
    d' = d → effect d d'
| effect_create (s : ParkingSession) (ns : list Notification) :
    sessions d' = sessions d ++ [s] →
    is_open s →
    lots d' = alter (synced (slotsToRelease s)) (parkingLot s) (lots d) →
    notifications d' = notifications d ++ ns → length ns ≤ 1 →
    effect d d'
| effect_activate (i : nat) (s0 s' : ParkingSession) (ns : list Notification) :
    sessions d !! i = Some s0 →
    sessions d' = <[i := s']> (sessions d) →
    same_identity s0 s' →
    transition (status s0) (status s') → is_open s' →
    lots d' = lots d →
    notifications d' = notifications d ++ ns → length ns ≤ 1 →
    effect d d'
| effect_close (i : nat) (s0 s' : ParkingSession) (ns : list Notification) :
    sessions d !! i = Some s0 →
    sessions d' = <[i := s']> (sessions d) →
    same_identity s0 s' →
    transition (status s0) (status s') → ¬ is_open s' →
    lots d' = alter (synced (- slotsToRelease s0)) (parkingLot s0) (lots d) →
    notifications d' = notifications d ++ ns → length ns ≤ 1 →
    effect d d'.

(** The slots a session holds at lot [k]. *)
Definition held (k : oid) (s : ParkingSession) : Z :=
  if decide (parkingLot s = k ∧ is_open s) then slotsToRelease s else 0%Z.

(** The slots held at lot [k] by all the sessions of the store. *)
Definition reserved (d : db) (k : oid) : Z :=
  foldr (λ s acc, held k s + acc)%Z 0%Z (sessions d).

(** Every lot shows the status its counters give. *)
Definition status_synced (d : db) : Prop :=
  ∀ k l, lots d !! k = Some l →
         lot_status l = resolveLotStatus (occupiedSpots l) (totalSpots l).

(** No lot is occupied beyond its capacity. *)
Definition within_capacity (d : db) : Prop :=
  ∀ k l, lots d !! k = Some l → (occupiedSpots l ≤ totalSpots l)%Z.

(** The answer of [cancelBooking] to what it cannot cancel. *)
Definition not_cancelable : response :=
  Json 404 false (Some "Booked session not found or cannot be canceled") None.

(** No user has two active sessions. *)
Definition one_active_each (d : db) : Prop :=
  ∀ i j si sj, sessions d !! i = Some si → sessions d !! j = Some sj →
               status si = active → status sj = active →
               user si = user sj → i = j.

(** ** A few requests in a row *)

Module Trace.

(** The booking of [Sample.booked], as it is stored. *)
Definition the_booking : ParkingSession :=
  mkSession 1 7 (Some "car") (DateMs 1767261600000)
    (Some (DateMs 1767268800000)) None 2 booked 500.

(** The walk-in of [Sample.parked], as it is stored. *)
Definition the_walk_in : ParkingSession := schemaSession 1000000 1 7 None.

(** The lot of [Sample.parked]. *)
Definition the_lot_parked : ParkingLot :=
  mkLot "Durbar Marg" 2 1 "available" 100 "car".

(** The guard lets user 1 in and out again. *)
Definition visit : list (request * Z) :=
  [(GuardEntry 1 7, 2000000%Z); (GuardExit 1 7, 9000000%Z)].

(** User 2 books, user 3 starts, user 2 cancels, user 3 completes, and a
    few requests are refused on the way. *)
Definition busy : list (request * Z) :=
  [(BookParking 2 Sample.booking, 100%Z);
   (StartSession 3 7 (Some "bike"), 200%Z);
   (BookParking 4 Sample.booking, 300%Z);
   (CancelBooking 3 0, 400%Z);
   (CancelBooking 2 0, 500%Z);
   (GuardEntry 4 7, 600%Z);
   (CompleteSession 3, 4000000%Z);
   (GuardExit 4 7, 5000000%Z)].

End Trace.

(** * Properties *)

(** ** The store *)

Lemma set_lot_status_id l : set_lot_status (lot_status l) l = l.
Proof. by destruct l. Qed.

Lemma syncLotStatus_alter id delta d :
  (syncLotStatus id delta d).1 = set_lots (alter (synced delta) id (lots d)) d.
Proof.
  unfold syncLotStatus.
  destruct (lots d !! id) as [l|] eqn:Hl.
  - set (l1 := inc_occupiedSpots delta l).
    destruct (String.eqb_spec (lot_status l1)
                (resolveLotStatus (occupiedSpots l1) (totalSpots l1))) as [He|He];
      simpl; unfold set_lots; simpl; f_equal.
    + apply map_eq; intros k. rewrite lookup_alter, lookup_insert.
      destruct (decide (id = k)) as [->|Hk]; [|done].
      rewrite Hl. simpl. f_equal. unfold synced.
      change (occupiedSpots l + delta)%Z with (occupiedSpots l1).
      change (totalSpots l) with (totalSpots l1).
      rewrite <- He. symmetry. apply set_lot_status_id.
    + apply map_eq; intros k. rewrite !lookup_alter.
      destruct (decide (id = k)) as [->|Hk].
      * by rewrite lookup_insert_eq, Hl.
      * by rewrite lookup_insert_ne.
  - simpl. destruct d as [m ss ns]; unfold set_lots; simpl in *. f_equal.
    apply map_eq; intros k. rewrite lookup_alter.
    destruct (decide (id = k)) as [->|Hk]; [by rewrite Hl|done].
Qed.

Lemma syncLotStatus_sessions id delta d :
  sessions (syncLotStatus id delta d).1 = sessions d.
Proof. by rewrite syncLotStatus_alter. Qed.

Lemma syncLotStatus_notifications id delta d :
  notifications (syncLotStatus id delta d).1 = notifications d.
Proof. by rewrite syncLotStatus_alter. Qed.

Lemma syncLotStatus_lookup id delta d k :
  lots (syncLotStatus id delta d).1 !! k
  = if decide (id = k) then synced delta <$> lots d !! k else lots d !! k.
Proof.
  rewrite syncLotStatus_alter. simpl. rewrite lookup_alter.
  by case_decide; subst.
Qed.

Lemma syncLotStatus_missing id delta d :
  lots d !! id = None → syncLotStatus id delta d = (d, None).
Proof. intros H. unfold syncLotStatus. by rewrite H. Qed.

Lemma synced_occupied delta l :
  occupiedSpots (synced delta l) = (occupiedSpots l + delta)%Z.
Proof. done. Qed.

Lemma synced_status delta l :
  lot_status (synced delta l)
  = resolveLotStatus (occupiedSpots (synced delta l)) (totalSpots (synced delta l)).
Proof. done. Qed.

Lemma ParkingSession_create_valid s d :
  castable s = true →
  ParkingSession_create s d
  = inr (set_sessions (sessions d ++ [s]) d, length (sessions d)).
Proof. intros H. unfold ParkingSession_create. by rewrite H. Qed.

Lemma ParkingSession_create_invalid s d :
  castable s = false → ParkingSession_create s d = inl validation_error.
Proof. intros H. unfold ParkingSession_create. by rewrite H. Qed.

Lemma sessions_Notification_create n d :
  sessions (Notification_create n d) = sessions d.
Proof. done. Qed.

Lemma lots_Notification_create n d :
  lots (Notification_create n d) = lots d.
Proof. done. Qed.

Lemma sessions_session_save i s d :
  sessions (session_save i s d) = <[i := s]> (sessions d).
Proof. done. Qed.

Lemma lots_session_save i s d : lots (session_save i s d) = lots d.
Proof. done. Qed.

Lemma notifications_session_save i s d :
  notifications (session_save i s d) = notifications d.
Proof. done. Qed.

Lemma sessions_set_sessions l d : sessions (set_sessions l d) = l.
Proof. done. Qed.

Lemma lots_set_sessions l d : lots (set_sessions l d) = lots d.
Proof. done. Qed.

Lemma notifications_set_sessions l d :
  notifications (set_sessions l d) = notifications d.
Proof. done. Qed.

Create Rewrite HintDb store.

#[local] Hint Rewrite sessions_Notification_create lots_Notification_create
  sessions_session_save lots_session_save notifications_session_save
  sessions_set_sessions lots_set_sessions notifications_set_sessions
  syncLotStatus_sessions syncLotStatus_notifications : store.

(** ** The newest match *)

Lemma findLatest_Some P `{!∀ s, Decision (P s)} l i j s :
  findLatest P i l = Some (j, s) →
  ∃ k, j = i + k ∧ l !! k = Some s ∧ P s ∧
       ∀ k' s', l !! k' = Some s' → P s' → (createdAt s' ≤ createdAt s)%Z.
Proof.
  revert i j s. induction l as [|x l IH]; intros i j s; simpl; [done|].
  destruct (decide (P x)) as [Hx|Hx].
  - destruct (findLatest P (S i) l) as [[j' s']|] eqn:Hrest.
    + destruct (IH _ _ _ Hrest) as (k & -> & Hk & Hs' & Hmax).
      destruct (Z.ltb_spec (createdAt x) (createdAt s')) as [Hlt|Hge];
        intros [= <- <-].
      * exists (S k). split_and!; [lia|done|done|].
        intros [|k'] s2 H2 HP2; simpl in H2.
        -- injection H2 as <-. lia.
        -- by eapply Hmax.
      * exists 0. split_and!; [lia|done|done|].
        intros [|k'] s2 H2 HP2; simpl in H2.
        -- injection H2 as <-. lia.
        -- specialize (Hmax _ _ H2 HP2). lia.
    + intros [= <- <-]. exists 0. split_and!; [lia|done|done|].
      intros [|k'] s2 H2 HP2; simpl in H2.
      * injection H2 as <-. lia.
      * exfalso. clear IH. revert Hrest k' H2. generalize (S i).
        induction l as [|y l IHl]; intros n Hrest k' H2; [done|].
        simpl in Hrest. destruct (decide (P y)) as [Hy|Hy].
        -- destruct (findLatest P (S n) l) as [[? ?]|]; [|done].
           by destruct (createdAt y <? createdAt _)%Z.
        -- destruct k' as [|k']; simpl in H2.
           ++ by injection H2 as <-.
           ++ by eapply IHl.
  - intros Hrest. destruct (IH _ _ _ Hrest) as (k & -> & Hk & Hs' & Hmax).
    exists (S k). split_and!; [lia|done|done|].
    intros [|k'] s2 H2 HP2; simpl in H2.
    + by injection H2 as <-.
    + by eapply Hmax.
Qed.

Lemma findLatest_None P `{!∀ s, Decision (P s)} l i :
  findLatest P i l = None ↔ ∀ s, s ∈ l → ¬ P s.
Proof.
  revert i. induction l as [|x l IH]; intros i; simpl.
  - split; [|done]. intros _ s Hs. by apply elem_of_nil in Hs.
  - destruct (decide (P x)) as [Hx|Hx].
    + split.
      * destruct (findLatest P (S i) l) as [[? ?]|]; [|done].
        by destruct (createdAt x <? createdAt _)%Z.
      * intros Hall. exfalso. apply (Hall x); [left|done].
    + rewrite IH. split.
      * intros Hall s Hs.
        apply elem_of_cons in Hs as [->|Hs]; [done|by apply Hall].
      * intros Hall s Hs. apply Hall. by right.
Qed.

Lemma list_find_None_iff (P : ParkingSession → Prop) `{!∀ s, Decision (P s)}
    (l : list ParkingSession) :
  list_find P l = None ↔ ∀ s, s ∈ l → ¬ P s.
Proof. rewrite list_find_None, Forall_forall. done. Qed.

(** ** Numbers *)

Lemma num_or_zero x : num_or x 0 = x.
Proof. unfold num_or. destruct (Z.eqb_spec x 0); congruence. Qed.

Lemma isInteger_exact q :
  isInteger (Num q) = true →
  Qnum q = (Zpos (Qden q) * int_value (Num q))%Z.
Proof.
  simpl. intros H%Z.eqb_eq.
  pose proof (Z.quot_rem' (Qnum q) (Zpos (Qden q))) as E. lia.
Qed.

Lemma js_lt_available a n :
  isInteger n = true →
  js_lt (Num (inject_Z a)) n = (a <? int_value n)%Z.
Proof.
  destruct n as [q| |]; [|done..]. intros H%isInteger_exact.
  unfold js_lt. cbn [inject_Z Qnum Qden]. rewrite H.
  destruct (Z.ltb_spec a (int_value (Num q)));
    [apply Z.ltb_lt|apply Z.ltb_ge]; nia.
Qed.

Lemma js_lt_one n :
  isInteger n = true →
  js_lt n (Num 1) = (int_value n <? 1)%Z.
Proof.
  destruct n as [q| |]; [|done..]. intros H%isInteger_exact.
  unfold js_lt. cbn [Qnum Qden]. rewrite H.
  destruct (Z.ltb_spec (int_value (Num q)) 1);
    [apply Z.ltb_lt|apply Z.ltb_ge]; nia.
Qed.

Lemma resolveLotStatus_full o t :
  resolveLotStatus o t = "full" ↔ (o >= t)%Z.
Proof.
  unfold resolveLotStatus. rewrite Z.geb_leb.
  destruct (Z.leb_spec t o); split; (done || lia).
Qed.

Lemma resolveLotStatus_available o t :
  resolveLotStatus o t = "available" ↔ ¬ (o >= t)%Z.
Proof.
  unfold resolveLotStatus. rewrite Z.geb_leb.
  destruct (Z.leb_spec t o); split; (done || lia).
Qed.

(** ** Bookings *)

Section Properties.
Variable StringToNumber : string → jsnum.
Variable Date_parse : string → jsdate.

Local Abbreviation requested := (requestedSlots StringToNumber).
Local Abbreviation book := (bookParking StringToNumber Date_parse).
Local Abbreviation dispatch := (handle StringToNumber Date_parse).

(** C1, as the code has it.  A booking request that names a lot, gives a
    window of two valid dates and asks for a whole number [n >= 1] of slots
    succeeds exactly when the lot exists and
    [totalSpots - occupiedSpots >= n].  On success a session with status
    booked and [n] slots is created for the given window and the occupancy
    of the lot grows by [n]; an unknown lot is answered 404 and a lack of
    capacity 400, the store being left as it was. *)
Theorem bookParking_capacity (u : oid) (b : BookBody) (now : Z) (d : db)
    (id : oid) :
  body_parkingLotId b = Some id →
  truthy (body_startTime b) = true →
  truthy (body_endTime b) = true →
  valid_date (new_Date StringToNumber Date_parse (body_startTime b)) = true →
  valid_date (new_Date StringToNumber Date_parse (body_endTime b)) = true →
  isInteger (requested b) = true →
  js_lt (requested b) (Num 1) = false →
  let n := int_value (requested b) in
  let r := book u b now d in
  (1 ≤ n)%Z ∧
  (succeeded r.2 = true ↔
     ∃ lot, lots d !! id = Some lot
            ∧ (totalSpots lot - occupiedSpots lot >= n)%Z) ∧
  (succeeded r.2 = true →
     ∃ s, r.2 = Json 201 true None (Some (length (sessions d), s))
          ∧ sessions r.1 = sessions d ++ [s]
          ∧ user s = u ∧ parkingLot s = id
          ∧ status s = booked ∧ slots s = n
          ∧ startTime s
            = new_Date StringToNumber Date_parse (body_startTime b)
          ∧ endTime s
            = Some (new_Date StringToNumber Date_parse (body_endTime b))
          ∧ occupancy r.1 id = (λ o, o + n)%Z <$> occupancy d id
          ∧ (∀ k, k ≠ id → lots r.1 !! k = lots d !! k)) ∧
  (lots d !! id = None → r.1 = d ∧ res_code r.2 = Some 404) ∧
  (∀ lot, lots d !! id = Some lot →
          (totalSpots lot - occupiedSpots lot < n)%Z →
          r.1 = d ∧ res_code r.2 = Some 400).
Proof.
  intros Hid Hst Het Hvs Hve Hint Hge n r.
  assert (Hn : (1 ≤ n)%Z).
  { rewrite js_lt_one in Hge by done. apply Z.ltb_ge in Hge. done. }
  subst r. unfold bookParking. rewrite Hid, Hst, Het, Hint, Hge.
  cbn [negb orb].
  destruct (lots d !! id) as [lot|] eqn:Hlot.
  - rewrite num_or_zero, js_lt_available by done. fold n.
    destruct (Z.ltb_spec (totalSpots lot - occupiedSpots lot) n) as [Hlt|Hok].
    + cbn [fst snd succeeded res_code]. split_and!; [done| |done|done|done].
      split; [done|]. intros (lot' & [= <-] & ?). lia.
    + rewrite ParkingSession_create_valid
        by (unfold castable; cbn [startTime endTime from_option];
            by rewrite Hvs, Hve).
      cbn [fst snd succeeded res_code].
      split_and!; [done| | |done|].
      * split; [|done]. intros _. exists lot. split; [done|lia].
      * intros _. eexists. split_and!; try done.
        -- rewrite syncLotStatus_sessions. done.
        -- unfold occupancy. rewrite syncLotStatus_lookup.
           rewrite decide_True by done. simpl. rewrite Hlot. done.
        -- intros k Hk. rewrite syncLotStatus_lookup.
           by rewrite decide_False.
      * intros lot' [= <-] ?. lia.
  - cbn [fst snd succeeded res_code]. split_and!; [done| |done|done|done].
    split; [done|]. by intros (lot' & ? & ?).
Qed.

Lemma bookParking_invalid_date (u : oid) (b : BookBody) (now : Z) (d : db)
    (id : oid) (lot : ParkingLot) :
  body_parkingLotId b = Some id →
  truthy (body_startTime b) = true →
  truthy (body_endTime b) = true →
  isInteger (requested b) = true →
  js_lt (requested b) (Num 1) = false →
  lots d !! id = Some lot →
  (totalSpots lot - occupiedSpots lot >= int_value (requested b))%Z →
  valid_date (new_Date StringToNumber Date_parse (body_startTime b)) = false
  ∨ valid_date (new_Date StringToNumber Date_parse (body_endTime b)) = false →
  book u b now d = (d, NextError validation_error).
Proof.
  intros Hid Hst Het Hint Hge Hlot Hcap Hbad.
  unfold bookParking. rewrite Hid, Hst, Het, Hint, Hge, Hlot.
  cbn [negb orb]. rewrite num_or_zero, js_lt_available by done.
  destruct (Z.ltb_spec (totalSpots lot - occupiedSpots lot)
              (int_value (requested b))); [lia|].
  rewrite ParkingSession_create_invalid; [done|].
  unfold castable. cbn [startTime endTime from_option].
  destruct Hbad as [-> | ->]; [done|apply andb_false_r].
Qed.


(** C10.  The vehicle type of a booking comes from the lot alone: a
    vehicleType in the request changes nothing, and the created session
    is a "bike" session exactly when the type of the lot is "bike", a
    "car" session otherwise. *)
Theorem bookParking_vehicleType (u : oid) (b : BookBody) (now : Z) (d : db) :
  (∀ v, book u (mkBookBody (body_parkingLotId b) (body_slots b)
                  (body_startTime b) (body_endTime b) v) now d
        = book u b now d) ∧
  (∀ c msg i s,
     (book u b now d).2 = Json c true msg (Some (i, s)) →
     ∃ id lot,
       body_parkingLotId b = Some id ∧ lots d !! id = Some lot
       ∧ sessions (book u b now d).1 = sessions d ++ [s]
       ∧ (vehicleType s = Some "bike" ↔ lot_type lot = "bike")
       ∧ (lot_type lot ≠ "bike" → vehicleType s = Some "car")).
Proof.
  split; [done|].
  intros c msg i s. unfold bookParking.
  destruct (body_parkingLotId b) as [id|]; [|done].
  destruct (_ || _); [done|]. destruct (_ || _); [done|].
  destruct (lots d !! id) as [lot|] eqn:Hlot; [|done].
  destruct (js_lt _ _); [done|].
  unfold ParkingSession_create. destruct (castable _); [|done].
  cbn [snd fst]. intros [= <- <- <- <-]. exists id, lot. split_and!; [done|done| | |].
  - by rewrite syncLotStatus_sessions.
  - cbn [vehicleType]. destruct (String.eqb_spec (lot_type lot) "bike");
      split; congruence.
  - cbn [vehicleType]. intros Hne.
    by destruct (String.eqb_spec (lot_type lot) "bike").
Qed.

(** ** Starting a session *)

(** C5.  [startSession] answers 400 and writes nothing when the caller
    already has an active session.  Otherwise it creates a session that is
    active, holds one slot and starts now, and the occupancy of the chosen
    lot grows by one. *)
Theorem startSession_spec (u l : oid) (vt : option string) (now : Z) (d : db) :
  let r := startSession u l vt now d in
  ((∃ s, s ∈ sessions d ∧ active_of u s) →
   r = (d, Json 400 false (Some "User already has an active session") None)) ∧
  ((∀ s, s ∈ sessions d → ¬ active_of u s) →
   ∃ s, r.2 = Json 201 true None (Some (length (sessions d), s))
        ∧ sessions r.1 = sessions d ++ [s]
        ∧ user s = u ∧ parkingLot s = l
        ∧ status s = active ∧ slots s = 1%Z ∧ startTime s = DateMs now
        ∧ occupancy r.1 l = (λ o, o + 1)%Z <$> occupancy d l
        ∧ (∀ k, k ≠ l → lots r.1 !! k = lots d !! k)
        ∧ notifications r.1 = notifications d).
Proof.
  intros r. subst r. unfold startSession.
  destruct (list_find (active_of u) (sessions d)) as [[i s0]|] eqn:Hfind.
  - split; [done|]. intros Hnone.
    apply list_find_Some in Hfind as (Hi & Hact & _).
    exfalso. eapply Hnone; [|done]. by eapply list_elem_of_lookup_2.
  - split.
    + intros (s & Hs & Hact). exfalso.
      eapply list_find_None_iff in Hfind; [|done]. done.
    + intros _. eexists. rewrite ParkingSession_create_valid by done; cbn [fst snd].
      split_and!; try done.
      * by rewrite syncLotStatus_sessions.
      * unfold occupancy. rewrite syncLotStatus_lookup.
        rewrite decide_True by done. cbn [lots set_sessions].
        by destruct (lots d !! l).
      * intros k Hk. rewrite syncLotStatus_lookup. by rewrite decide_False.
      * by rewrite syncLotStatus_notifications.
Qed.

(** ** Guard entry *)

(** C3.  [guardEntry] always answers 200.  When the user has a booking at
    the lot, a booking with the greatest creation time becomes active with
    start time now and no lot changes.  When there is none, a new active
    session is appended and the occupancy of the lot grows by one. *)
Theorem guardEntry_spec (u l : oid) (now : Z) (d : db) :
  let r := guardEntry u l now d in
  (∃ i s, r.2 = Json 200 true (Some "Entry successful") (Some (i, s))
          ∧ sessions r.1 !! i = Some s ∧ status s = active
          ∧ startTime s = DateMs now) ∧
  ((∃ s, s ∈ sessions d ∧ booked_at u l s) →
   ∃ i s, sessions d !! i = Some s ∧ booked_at u l s
          ∧ (∀ j s2, sessions d !! j = Some s2 → booked_at u l s2 →
                     (createdAt s2 ≤ createdAt s)%Z)
          ∧ res_data r.2 = Some (i, activate now s)
          ∧ sessions r.1 = <[i := activate now s]> (sessions d)
          ∧ lots r.1 = lots d) ∧
  ((∀ s, s ∈ sessions d → ¬ booked_at u l s) →
   ∃ s, res_data r.2 = Some (length (sessions d), s)
        ∧ sessions r.1 = sessions d ++ [s]
        ∧ user s = u ∧ parkingLot s = l ∧ status s = active
        ∧ occupancy r.1 l = (λ o, o + 1)%Z <$> occupancy d l
        ∧ (∀ k, k ≠ l → lots r.1 !! k = lots d !! k)).
Proof.
  intros r. subst r. unfold guardEntry.
  destruct (findLatest (booked_at u l) 0 (sessions d)) as [[i s0]|] eqn:Hfind.
  - apply findLatest_Some in Hfind as (k & -> & Hk & Hb & Hmax).
    cbn [fst snd Notification_create session_save set_sessions sessions lots
         res_data plus].
    split_and!.
    + eexists _, _. split_and!; try done.
      apply list_lookup_insert_eq. by eapply lookup_lt_Some.
    + intros _. exists k, s0. by split_and!.
    + intros Hnone. exfalso. eapply Hnone; [|done].
      by eapply list_elem_of_lookup_2.
  - rewrite ParkingSession_create_valid by done; cbn [fst snd Notification_create res_data].
    split_and!.
    + eexists _, _. split_and!; try done.
      autorewrite with store.
      rewrite lookup_app_r by done. by rewrite Nat.sub_diag.
    + intros (s & Hs & Hb). exfalso.
      eapply findLatest_None in Hfind; [|done]. done.
    + intros _. eexists. split_and!; try done.
      * by autorewrite with store.
      * unfold occupancy. autorewrite with store. rewrite syncLotStatus_lookup.
        rewrite decide_True by done. autorewrite with store.
        by destruct (lots d !! l).
      * intros k Hk. autorewrite with store. rewrite syncLotStatus_lookup.
        by rewrite decide_False.
Qed.

(** ** Settlement *)

Lemma Qceiling_hours (e : Z) :
  Qceiling (inject_Z e / inject_Z 3600000) = (- (- e / 3600000))%Z.
Proof.
  unfold Qceiling, Qfloor, Qdiv, Qmult, Qinv, Qopp, inject_Z.
  cbn [Qnum Qden]. rewrite Z.mul_1_r. done.
Qed.

Lemma billed_hours (e : Z) :
  let h := Z.max 1 (Qceiling (inject_Z e / inject_Z 3600000)) in
  (1 ≤ h ∧ e ≤ h * 3600000 ∧ (1 < h → (h - 1) * 3600000 < e))%Z.
Proof.
  intros h. subst h. rewrite Qceiling_hours.
  pose proof (Z.div_mod (- e) 3600000 ltac:(lia)) as E.
  pose proof (Z.mod_pos_bound (- e) 3600000 ltac:(lia)) as B.
  lia.
Qed.

Lemma computeCharge_valid (now t0 : Z) (rate : N) :
  computeCharge (DateMs now) (DateMs t0) rate
  = IntNum (Z.max 1 (Qceiling (inject_Z (now - t0) / inject_Z 3600000))
            * Z.of_N rate).
Proof. done. Qed.

Lemma guardExit_cases (u l : oid) (now : Z) (d : db) :
  (list_find (active_at u l) (sessions d) = None
   ∧ guardExit u l now d
     = (d, Json 404 false (Some "No active session found for this user") None))
  ∨ (∃ i s, list_find (active_at u l) (sessions d) = Some (i, s)
            ∧ lots d !! parkingLot s = None
            ∧ guardExit u l now d = (d, NextError null_deref))
  ∨ (∃ i s lot s',
       list_find (active_at u l) (sessions d) = Some (i, s)
       ∧ lots d !! parkingLot s = Some lot
       ∧ s' = settle now
                (computeCharge (DateMs now) (startTime s) (pricePerHour lot)) s
       ∧ sessions (guardExit u l now d).1 = <[i := s']> (sessions d)
       ∧ lots (guardExit u l now d).1
         = alter (synced (- slotsToRelease s')) l (lots d)
       ∧ (guardExit u l now d).2
         = Json 200 true (Some "Exit successful") (Some (i, s'))).
Proof.
  unfold guardExit, populate.
  destruct (list_find _ _) as [[i s]|]; [|by left]. right.
  destruct (lots d !! parkingLot s) as [lot|] eqn:Hlot.
  - right. eexists i, s, lot, _. cbn [fst snd]. split_and!; try done.
    + by autorewrite with store.
    + autorewrite with store. by rewrite syncLotStatus_alter.
  - left. by exists i, s.
Qed.

Lemma completeSession_cases (u : oid) (now : Z) (d : db) :
  (list_find (active_of u) (sessions d) = None
   ∧ completeSession u now d
     = (d, Json 404 false (Some "No active session found") None))
  ∨ (∃ i s, list_find (active_of u) (sessions d) = Some (i, s)
            ∧ lots d !! parkingLot s = None
            ∧ completeSession u now d = (d, NextError null_deref))
  ∨ (∃ i s lot s',
       list_find (active_of u) (sessions d) = Some (i, s)
       ∧ lots d !! parkingLot s = Some lot
       ∧ s' = settle now
                (computeCharge (DateMs now) (startTime s) (pricePerHour lot)) s
       ∧ sessions (completeSession u now d).1 = <[i := s']> (sessions d)
       ∧ lots (completeSession u now d).1
         = alter (synced (- slotsToRelease s')) (parkingLot s) (lots d)
       ∧ notifications (completeSession u now d).1 = notifications d
       ∧ (completeSession u now d).2 = Json 200 true None (Some (i, s'))).
Proof.
  unfold completeSession, populate.
  destruct (list_find _ _) as [[i s]|]; [|by left]. right.
  destruct (lots d !! parkingLot s) as [lot|] eqn:Hlot.
  - right. eexists i, s, lot, _. cbn [fst snd]. split_and!; try done.
    + by autorewrite with store.
    + by rewrite syncLotStatus_alter.
    + by autorewrite with store.
  - left. by exists i, s.
Qed.

(** C2.  Whenever [guardExit] or [completeSession] settles a session that
    started at or before the settlement time, the amount written is
    [max(1, ceil(elapsedMs / 3600000)) * pricePerHour], where the billed
    hours [h] are the least whole number [>= 1] of hours covering the
    elapsed time; hence the amount is at least [pricePerHour]. *)
Theorem settlement_charge (u l : oid) (now t0 : Z) (d : db)
    (r : db * response) (msg : option string) (i : nat)
    (s s' : ParkingSession) :
  r = guardExit u l now d ∨ r = completeSession u now d →
  r.2 = Json 200 true msg (Some (i, s')) →
  sessions d !! i = Some s →
  startTime s = DateMs t0 →
  (t0 ≤ now)%Z →
  ∃ lot h,
    lots d !! parkingLot s = Some lot
    ∧ h = Z.max 1 (Qceiling (inject_Z (now - t0) / inject_Z 3600000))
    ∧ totalAmount s' = Some (IntNum (h * Z.of_N (pricePerHour lot)))
    ∧ status s' = completed
    ∧ sessions r.1 !! i = Some s'
    ∧ (Z.of_N (pricePerHour lot) ≤ h * Z.of_N (pricePerHour lot))%Z
    ∧ (1 ≤ h ∧ now - t0 ≤ h * 3600000
       ∧ (1 < h → (h - 1) * 3600000 < now - t0))%Z.
Proof.
  intros Hr Hres Hs Ht0 Hle.
  assert (∃ lot, lots d !! parkingLot s = Some lot
                 ∧ s' = settle now (computeCharge (DateMs now) (startTime s)
                                      (pricePerHour lot)) s
                 ∧ sessions r.1 = <[i := s']> (sessions d))
    as (lot & Hlot & -> & Hss).
  { destruct Hr as [-> | ->].
    - destruct (guardExit_cases u l now d)
        as [[_ E]|[(j & s0 & _ & _ & E)|(j & s0 & lot & s1 & Hf & Hl & -> & Hss & _ & E)]];
        rewrite E in Hres; try done.
      injection Hres as _ <- <-.
      apply list_find_Some in Hf as (Hj & _ & _).
      rewrite Hs in Hj. injection Hj as <-. by exists lot.
    - destruct (completeSession_cases u now d)
        as [[_ E]|[(j & s0 & _ & _ & E)|(j & s0 & lot & s1 & Hf & Hl & -> & Hss & _ & _ & E)]];
        rewrite E in Hres; try done.
      injection Hres as _ <- <-.
      apply list_find_Some in Hf as (Hj & _ & _).
      rewrite Hs in Hj. injection Hj as <-. by exists lot. }
  pose proof (billed_hours (now - t0)) as (H1 & H2 & H3).
  exists lot, (Z.max 1 (Qceiling (inject_Z (now - t0) / inject_Z 3600000))).
  split_and!; try done.
  - cbn [settle totalAmount]. by rewrite Ht0, computeCharge_valid.
  - rewrite Hss. apply list_lookup_insert_eq. by eapply lookup_lt_Some.
  - nia.
Qed.

(** ** No active session *)

Lemma list_find_active_None (u : oid) (l : list ParkingSession) :
  (∀ s, s ∈ l → ¬ active_of u s) → list_find (active_of u) l = None.
Proof. intros H. by apply list_find_None_iff. Qed.

Lemma list_find_active_at_None (u p : oid) (l : list ParkingSession) :
  (∀ s, s ∈ l → ¬ active_of u s) → list_find (active_at u p) l = None.
Proof.
  intros Hnone. apply list_find_None_iff. intros s Hs (Hu & _ & Hst).
  by apply (Hnone s Hs).
Qed.

(** Without an active session of the user, [guardExit] and
    [completeSession] answer 404 and leave the store untouched.  So does a
    second [completeSession] in a row when the first one was served from a
    store in which the user had at most one active session and did not end
    in an internal error. *)
Theorem no_active_session_404 (u l : oid) (now now' : Z) (d : db) :
  ((∀ s, s ∈ sessions d → ¬ active_of u s) →
   guardExit u l now d
   = (d, Json 404 false (Some "No active session found for this user") None)
   ∧ completeSession u now d
     = (d, Json 404 false (Some "No active session found") None)) ∧
  ((∀ i j si sj, sessions d !! i = Some si → sessions d !! j = Some sj →
                 active_of u si → active_of u sj → i = j) →
   res_code (completeSession u now d).2 ≠ None →
   completeSession u now' (completeSession u now d).1
   = ((completeSession u now d).1,
      Json 404 false (Some "No active session found") None)).
Proof.
  split.
  - intros Hnone. unfold guardExit, completeSession.
    by rewrite list_find_active_at_None, list_find_active_None.
  - intros Huniq Hok.
    destruct (completeSession_cases u now d)
      as [[Hf E]|[(i & s & _ & _ & E)|(i & s & lot & s' & Hf & _ & Hs' & Hss & _ & _ & E)]].
    + rewrite E. cbn [fst]. unfold completeSession. by rewrite Hf.
    + by rewrite E in Hok.
    + unfold completeSession at 1.
      rewrite list_find_active_None; [done|].
      rewrite Hss. intros x Hx Hact.
      apply list_elem_of_lookup in Hx as [k Hk].
      apply list_find_Some in Hf as (Hi & Hacti & _).
      destruct (decide (k = i)) as [->|Hne].
      * rewrite list_lookup_insert_eq in Hk by by eapply lookup_lt_Some.
        injection Hk as <-. subst s'. by destruct Hact as [_ ?].
      * rewrite list_lookup_insert_ne in Hk by done.
        apply Hne. by eapply Huniq.
Qed.

(** ** Terminal sessions *)

Lemma handle_sessions_shape (r : request) (now : Z) (d : db) :
  sessions (dispatch r now d).1 = sessions d
  ∨ (∃ s, sessions (dispatch r now d).1 = sessions d ++ [s])
  ∨ (∃ j s0 s', sessions d !! j = Some s0
                ∧ (status s0 = booked ∨ status s0 = active)
                ∧ sessions (dispatch r now d).1 = <[j := s']> (sessions d)).
Proof.
  destruct r as [u l vt|u b|u l|u l|u i|u]; cbn [handle].
  - unfold startSession. destruct (list_find _ _); [by left|].
    right; left. eexists. rewrite ParkingSession_create_valid by done; cbn [fst].
    by autorewrite with store.
  - unfold bookParking.
    destruct (body_parkingLotId b) as [id|]; [|by left].
    destruct (_ || _); [by left|]. destruct (_ || _); [by left|].
    destruct (lots d !! id) as [lot|]; [|by left].
    destruct (js_lt _ _); [by left|].
    unfold ParkingSession_create. destruct (castable _); [|by left].
    right; left. eexists. cbn [fst]. by autorewrite with store.
  - unfold guardEntry.
    destruct (findLatest _ _ _) as [[i s0]|] eqn:Hf.
    + apply findLatest_Some in Hf as (k & -> & Hk & (_ & _ & Hst) & _).
      right; right. exists k, s0, (activate now s0). split_and!; [done|by left|].
      cbn [fst]. by autorewrite with store.
    + right; left. eexists. rewrite ParkingSession_create_valid by done; cbn [fst].
      by autorewrite with store.
  - destruct (guardExit_cases u l now d)
      as [[_ E]|[(i & s & _ & _ & E)|(i & s & lot & s' & Hf & _ & _ & Hss & _)]].
    + left. by rewrite E.
    + left. by rewrite E.
    + apply list_find_Some in Hf as (Hi & (_ & _ & Hst) & _).
      right; right. exists i, s, s'. split_and!; [done|by right|done].
  - unfold cancelBooking.
    destruct (sessions d !! i) as [s|] eqn:Hs; [|by left].
    destruct (decide _) as [[_ Hst]|]; [|by left].
    right; right. exists i, s, (cancel now s). split_and!; [done|by left|].
    cbn [fst]. autorewrite with store.
    destruct (populate s d); cbn [fmap option_fmap option_map];
      by autorewrite with store.
  - destruct (completeSession_cases u now d)
      as [[_ E]|[(i & s & _ & _ & E)|(i & s & lot & s' & Hf & _ & _ & Hss & _)]].
    + left. by rewrite E.
    + left. by rewrite E.
    + apply list_find_Some in Hf as (Hi & (_ & Hst) & _).
      right; right. exists i, s, s'. split_and!; [done|by right|done].
Qed.

Lemma handle_keeps_terminal (r : request) (now : Z) (d : db)
    (i : nat) (s : ParkingSession) :
  sessions d !! i = Some s →
  status s = completed ∨ status s = canceled →
  sessions (dispatch r now d).1 !! i = Some s.
Proof.
  intros Hs Hterm.
  destruct (handle_sessions_shape r now d)
    as [E|[(s' & E)|(j & s0 & s' & Hj & Hst & E)]]; rewrite E.
  - done.
  - rewrite lookup_app_l; [done|by eapply lookup_lt_Some].
  - rewrite list_lookup_insert_ne; [done|].
    intros ->. rewrite Hs in Hj. injection Hj as <-.
    destruct Hterm as [Ht|Ht], Hst as [Hb|Hb]; congruence.
Qed.

(** C4.  A session that is completed or canceled is never written again:
    whatever requests are served from then on, the session is still there
    with all its fields, because a request that writes a session either
    appends a new one or rewrites one it selected as booked or active. *)
Theorem terminal_sessions_absorbing (reqs : list (request * Z)) (d : db)
    (i : nat) (s : ParkingSession) :
  sessions d !! i = Some s →
  status s = completed ∨ status s = canceled →
  sessions (run StringToNumber Date_parse reqs d) !! i = Some s
  ∧ ∀ r now,
      sessions (dispatch r now d).1 = sessions d
      ∨ (∃ s', sessions (dispatch r now d).1 = sessions d ++ [s'])
      ∨ (∃ j s0 s', j ≠ i ∧ sessions d !! j = Some s0
                    ∧ (status s0 = booked ∨ status s0 = active)
                    ∧ sessions (dispatch r now d).1 = <[j := s']> (sessions d)).
Proof.
  intros Hs Hterm. split.
  - revert d Hs. induction reqs as [|[r now] reqs IH]; intros d Hs; [done|].
    cbn [run]. apply IH. by apply handle_keeps_terminal.
  - intros r now.
    destruct (handle_sessions_shape r now d)
      as [E|[(s' & E)|(j & s0 & s' & Hj & Hst & E)]].
    + by left.
    + right; left. by exists s'.
    + right; right. exists j, s0, s'. split_and!; try done.
      intros ->. rewrite Hs in Hj. injection Hj as <-.
      destruct Hterm as [Ht|Ht], Hst as [Hb|Hb]; congruence.
Qed.

(** ** Lot status *)

Lemma handle_lots_shape (r : request) (now : Z) (d : db) :
  lots (dispatch r now d).1 = lots d
  ∨ ∃ id delta, lots (dispatch r now d).1 = alter (synced delta) id (lots d).
Proof.
  destruct r as [u l vt|u b|u l|u l|u i|u]; cbn [handle].
  - unfold startSession. destruct (list_find _ _); [by left|].
    right. exists l, 1%Z. rewrite ParkingSession_create_valid by done; cbn [fst].
    by rewrite syncLotStatus_alter.
  - unfold bookParking.
    destruct (body_parkingLotId b) as [id|]; [|by left].
    destruct (_ || _); [by left|]. destruct (_ || _); [by left|].
    destruct (lots d !! id) as [lot|]; [|by left].
    destruct (js_lt _ _); [by left|].
    unfold ParkingSession_create. destruct (castable _); [|by left].
    right. exists id, (int_value (requested b)).
    cbn [fst]. by rewrite syncLotStatus_alter.
  - unfold guardEntry. destruct (findLatest _ _ _) as [[i s0]|]; [by left|].
    right. exists l, 1%Z. rewrite ParkingSession_create_valid by done; cbn [fst].
    autorewrite with store. by rewrite syncLotStatus_alter.
  - destruct (guardExit_cases u l now d)
      as [[_ E]|[(i & s & _ & _ & E)|(i & s & lot & s' & _ & _ & _ & _ & Hl & _)]].
    + left. by rewrite E.
    + left. by rewrite E.
    + right. by exists l, (- slotsToRelease s')%Z.
  - unfold cancelBooking.
    destruct (sessions d !! i) as [s|]; [|by left].
    destruct (decide _); [|by left].
    cbn [fst]. autorewrite with store.
    destruct (populate s d); cbn [fmap option_fmap option_map].
    + right. exists (parkingLot s), (- slotsToRelease (cancel now s))%Z.
      by rewrite syncLotStatus_alter.
    + by left.
  - destruct (completeSession_cases u now d)
      as [[_ E]|[(i & s & _ & _ & E)|(i & s & lot & s' & _ & _ & _ & _ & Hl & _)]].
    + left. by rewrite E.
    + left. by rewrite E.
    + right. by exists (parkingLot s), (- slotsToRelease s')%Z.
Qed.

(** C8.  [resolveLotStatus occupied total] is "full" exactly when
    [occupied >= total] and "available" otherwise; a synchronisation leaves
    the stored status equal to [resolveLotStatus occupiedSpots totalSpots];
    and so does every request that changes the occupancy of a lot. *)
Theorem lot_status_resynced :
  (∀ o t : Z,
     (resolveLotStatus o t = "full" ↔ (o >= t)%Z)
     ∧ (¬ (o >= t)%Z → resolveLotStatus o t = "available")) ∧
  (∀ (id : oid) (delta : Z) (d : db) (l : ParkingLot),
     lots d !! id = Some l →
     ∃ l', lots (syncLotStatus id delta d).1 !! id = Some l'
           ∧ occupiedSpots l' = (occupiedSpots l + delta)%Z
           ∧ totalSpots l' = totalSpots l
           ∧ lot_status l' = resolveLotStatus (occupiedSpots l') (totalSpots l')) ∧
  (∀ (r : request) (now : Z) (d : db) (id : oid) (l l' : ParkingLot),
     lots d !! id = Some l →
     lots (dispatch r now d).1 !! id = Some l' →
     occupiedSpots l' ≠ occupiedSpots l →
     lot_status l' = resolveLotStatus (occupiedSpots l') (totalSpots l')).
Proof.
  split_and!.
  - intros o t. split; [apply resolveLotStatus_full|].
    apply resolveLotStatus_available.
  - intros id delta d l Hl. exists (synced delta l).
    rewrite syncLotStatus_lookup, decide_True, Hl by done. done.
  - intros r now d id l l' Hl Hl' Hocc.
    destruct (handle_lots_shape r now d) as [E|(k & delta & E)];
      rewrite E in Hl'.
    + congruence.
    + rewrite lookup_alter in Hl'. case_decide as Hk.
      * subst k. rewrite Hl in Hl'. injection Hl' as <-. apply synced_status.
      * congruence.
Qed.

(** ** Orphaned sessions *)

Lemma settlement_of_orphan (u l : oid) (now : Z) (d : db) (i : nat)
    (s : ParkingSession) :
  lots d !! parkingLot s = None →
  (list_find (active_of u) (sessions d) = Some (i, s) →
   completeSession u now d = (d, NextError null_deref)) ∧
  (list_find (active_at u l) (sessions d) = Some (i, s) →
   guardExit u l now d = (d, NextError null_deref)).
Proof.
  intros Hlot. unfold completeSession, guardExit, populate.
  split; intros ->; by rewrite Hlot.
Qed.

(** Where the synchronisation is reached with a lot that does not exist, it
    changes nothing and the handler goes on: [startSession] and the walk-in
    path of [guardEntry] still answer with the session they created. *)
Lemma missing_lot_tolerated (u l : oid) (vt : option string) (now : Z) (d : db) :
  lots d !! l = None →
  lots (startSession u l vt now d).1 = lots d
  ∧ lots (guardEntry u l now d).1 = lots d
  ∧ res_code (guardEntry u l now d).2 = Some 200
  ∧ (list_find (active_of u) (sessions d) = None →
     res_code (startSession u l vt now d).2 = Some 201).
Proof.
  intros Hlot. unfold startSession, guardEntry. split_and!.
  - destruct (list_find _ _); [done|]. rewrite ParkingSession_create_valid by done; cbn [fst].
    by rewrite syncLotStatus_missing.
  - destruct (findLatest _ _ _) as [[i s0]|]; [done|].
    rewrite ParkingSession_create_valid by done; cbn [fst].
    by rewrite syncLotStatus_missing.
  - by destruct (findLatest _ _ _) as [[i s0]|].
  - by intros ->.
Qed.

Lemma cancelBooking_missing_lot (u : oid) (i : nat) (now : Z) (d : db)
    (s : ParkingSession) :
  sessions d !! i = Some s → user s = u → status s = booked →
  lots d !! parkingLot s = None →
  lots (cancelBooking u i now d).1 = lots d
  ∧ (cancelBooking u i now d).2 = Json 200 true None (Some (i, cancel now s)).
Proof.
  intros Hs Hu Hst Hlot. unfold cancelBooking, populate.
  rewrite Hs, decide_True, Hlot by done. done.
Qed.

End Properties.

(** * The handlers at work *)

Lemma bookParking_capacity_witness :
  succeeded
    (bookParking Sample.no_number Sample.no_date 1 Sample.booking 500
       Sample.store).2 = true
  ∧ (∃ l, lots Sample.store !! 7 = Some l
          ∧ (totalSpots l - occupiedSpots l >= 2)%Z)
  ∧ occupancy Sample.booked 7 = Some 2%Z.
Proof.
  destruct (bookParking_capacity Sample.no_number Sample.no_date 1
              Sample.booking 500 Sample.store 7
              eq_refl eq_refl eq_refl eq_refl eq_refl eq_refl eq_refl)
    as (_ & Hiff & Hok & _).
  split; [reflexivity|]. split.
  - apply Hiff. reflexivity.
  - destruct (Hok eq_refl) as (s & _ & _ & _ & _ & _ & _ & _ & _ & Hocc & _).
    exact Hocc.
Defined.

(** C1, the counterexample.  The window is written but is no date: the
    request names an existing lot with room for the one slot it asks for,
    and yet it does not succeed.  The session is rejected when it is
    created, the error is forwarded and nothing is written. *)
Lemma bookParking_invalid_date_counterexample :
  body_parkingLotId Sample.no_dates = Some 7
  ∧ truthy (body_startTime Sample.no_dates) = true
  ∧ truthy (body_endTime Sample.no_dates) = true
  ∧ isInteger (requestedSlots Sample.no_number Sample.no_dates) = true
  ∧ js_lt (requestedSlots Sample.no_number Sample.no_dates) (Num 1) = false
  ∧ lots Sample.store !! 7 = Some Sample.lot
  ∧ (totalSpots Sample.lot - occupiedSpots Sample.lot
     >= int_value (requestedSlots Sample.no_number Sample.no_dates))%Z
  ∧ succeeded
      (bookParking Sample.no_number Sample.no_date 1 Sample.no_dates 500
         Sample.store).2 = false
  ∧ bookParking Sample.no_number Sample.no_date 1 Sample.no_dates 500
      Sample.store
    = (Sample.store, NextError validation_error).
Proof. vm_compute. split_and!; (reflexivity || discriminate). Qed.

Lemma settlement_charge_witness :
  (1000000 ≤ 3700000)%Z
  ∧ res_data Sample.settled.2
    = Some (0, settle 3700000 (IntNum 100)
                 (schemaSession 1000000 1 7 None))
  ∧ ∃ l, lots Sample.parked !! 7 = Some l
         ∧ (Z.of_N (pricePerHour l) ≤ 1 * Z.of_N (pricePerHour l))%Z.
Proof.
  assert (H45 : (1000000 ≤ 3700000)%Z) by lia.
  destruct (settlement_charge 1 7 3700000%Z 1000000%Z Sample.parked
              Sample.settled None 0
              (schemaSession 1000000 1 7 None)
              (settle 3700000 (IntNum 100) (schemaSession 1000000 1 7 None))
              (or_intror eq_refl) eq_refl eq_refl eq_refl H45)
    as (l & h & Hl & Hh & _ & _ & _ & Hrate & _).
  split; [exact H45|]. split; [reflexivity|].
  exists l. split; [exact Hl|].
  vm_compute in Hh. rewrite Hh in Hrate. exact Hrate.
Defined.

Lemma guardEntry_spec_witness :
  (∃ i s, sessions Sample.booked !! i = Some s
          ∧ sessions (guardEntry 1 7 900 Sample.booked).1
            = <[i := activate 900 s]> (sessions Sample.booked)
          ∧ lots (guardEntry 1 7 900 Sample.booked).1 = lots Sample.booked)
  ∧ occupancy (guardEntry 1 7 900 Sample.store).1 7 = Some 1%Z.
Proof.
  split.
  - destruct (guardEntry_spec 1 7 900 Sample.booked) as (_ & Hbooked & _).
    destruct Hbooked as (i & s & Hi & _ & _ & _ & Hss & Hlots).
    + eexists. split; [left|]. vm_compute. split_and!; reflexivity.
    + by exists i, s.
  - destruct (guardEntry_spec 1 7 900 Sample.store) as (_ & _ & Hwalk).
    destruct Hwalk as (s & _ & _ & _ & _ & _ & Hocc & _).
    + intros s Hs. by apply elem_of_nil in Hs.
    + exact Hocc.
Defined.

Lemma terminal_sessions_absorbing_witness :
  sessions Sample.settled.1 !! 0
  = Some (settle 3700000 (IntNum 100) (schemaSession 1000000 1 7 None))
  ∧ sessions
      (run Sample.no_number Sample.no_date
         [(GuardEntry 1 7, 4000000%Z); (CompleteSession 1, 4100000%Z);
          (BookParking 1 Sample.booking, 4200000%Z);
          (CancelBooking 1 0, 4300000%Z); (GuardExit 1 7, 4400000%Z)]
         Sample.settled.1) !! 0
    = Some (settle 3700000 (IntNum 100) (schemaSession 1000000 1 7 None)).
Proof.
  split; [reflexivity|].
  apply (terminal_sessions_absorbing Sample.no_number Sample.no_date
           _ Sample.settled.1 0 _ eq_refl (or_introl eq_refl)).
Defined.

Lemma startSession_spec_witness :
  startSession 1 7 (Some "car") 2000000 Sample.parked
  = (Sample.parked,
     Json 400 false (Some "User already has an active session") None)
  ∧ occupancy (startSession 1 7 (Some "car") 2000000 Sample.store).1 7
    = Some 1%Z.
Proof.
  split.
  - apply (startSession_spec 1 7 (Some "car") 2000000 Sample.parked).
    exists (schemaSession 1000000 1 7 None). split; [left|]. by vm_compute.
  - destruct (startSession_spec 1 7 (Some "car") 2000000 Sample.store)
      as (_ & Hnew).
    destruct Hnew as (s & _ & _ & _ & _ & _ & _ & _ & Hocc & _).
    + intros s Hs. by apply elem_of_nil in Hs.
    + exact Hocc.
Defined.

Lemma no_active_session_404_witness :
  res_code (guardExit 1 7 5000 Sample.store).2 = Some 404
  ∧ res_code Sample.settled.2 = Some 200
  ∧ completeSession 1 3800000 Sample.settled.1
    = (Sample.settled.1,
       Json 404 false (Some "No active session found") None).
Proof.
  split_and!.
  - destruct (no_active_session_404 1 7 5000 5000 Sample.store) as (H404 & _).
    destruct H404 as (-> & _); [|reflexivity].
    intros s Hs. by apply elem_of_nil in Hs.
  - reflexivity.
  - destruct (no_active_session_404 1 7 3700000 3800000 Sample.parked)
      as (_ & Htwice).
    apply Htwice.
    + intros i j si sj Hi%lookup_lt_Some Hj%lookup_lt_Some _ _.
      change (length (sessions Sample.parked)) with 1 in Hi, Hj. lia.
    + discriminate.
Defined.


Lemma lot_status_resynced_witness :
  resolveLotStatus 2 2 = "full"
  ∧ (∃ l, lots (syncLotStatus 7 2 Sample.store).1 !! 7 = Some l
          ∧ lot_status l = resolveLotStatus (occupiedSpots l) (totalSpots l))
  ∧ lot_status (mkLot "Durbar Marg" 2 2 "full" 100 "car")
    = resolveLotStatus 2 2.
Proof.
  destruct (lot_status_resynced Sample.no_number Sample.no_date)
    as (Hpure & Hsync & Hany).
  split_and!.
  - apply Hpure. lia.
  - destruct (Hsync 7 2%Z Sample.store Sample.lot eq_refl)
      as (l & Hl & _ & _ & Hst).
    by exists l.
  - apply (Hany (BookParking 1 Sample.booking) 500%Z Sample.store 7
             Sample.lot (mkLot "Durbar Marg" 2 2 "full" 100 "car")
             eq_refl eq_refl).
    discriminate.
Defined.

Lemma bookParking_vehicleType_witness :
  ∃ s, sessions Sample.booked = [s] ∧ vehicleType s = Some "car".
Proof.
  destruct (bookParking_vehicleType Sample.no_number Sample.no_date 1
              Sample.booking 500 Sample.store) as (_ & Hlot).
  destruct (Hlot 201 None 0
              (mkSession 1 7 (Some "car") (DateMs 1767261600000)
                 (Some (DateMs 1767268800000)) None 2 booked 500) eq_refl)
    as (id & l & Hid & Hl & Hss & _ & Hcar).
  eexists. split; [exact Hss|].
  apply Hcar. injection Hid as <-. injection Hl as <-. discriminate.
Defined.

(** C6, at a failing input.  A guard lets user 1 in twice: [guardEntry]
    does not look for an active session of the user, as [startSession]
    does, and leaves the user with two.  The second of two
    [completeSession] calls in a row then answers 200 instead of 404,
    settles the other session and releases occupancy once more. *)
Theorem completeSession_twice_settles_again :
  let first := completeSession 1 3700000 Sample.parked_twice in
  let second := completeSession 1 3800000 first.1 in
  res_code first.2 = Some 200
  ∧ res_code second.2 = Some 200
  ∧ res_code second.2 ≠ Some 404
  ∧ occupancy Sample.parked_twice 7 = Some 2%Z
  ∧ occupancy first.1 7 = Some 1%Z
  ∧ occupancy second.1 7 = Some 0%Z.
Proof. vm_compute. split_and!; (reflexivity || discriminate). Qed.

(** C9, at a failing input.  User 1 starts a session at a lot that does not
    exist: the session is created and the synchronisation is a no-op.  The
    settlement of that session, by [completeSession] or by [guardExit],
    raises a TypeError on [session.parkingLot.pricePerHour] before the
    synchronisation is reached, and the session stays active. *)
Theorem settlement_of_orphaned_session_throws :
  res_code (startSession 1 99 None 1000 Sample.store).2 = Some 201
  ∧ lots Sample.orphaned !! 99 = None
  ∧ syncLotStatus 99 (-1) Sample.orphaned = (Sample.orphaned, None)
  ∧ completeSession 1 5000 Sample.orphaned
    = (Sample.orphaned, NextError null_deref)
  ∧ guardExit 1 99 5000 Sample.orphaned
    = (Sample.orphaned, NextError null_deref)
  ∧ status <$> sessions Sample.orphaned !! 0 = Some active.
Proof. vm_compute. split_and!; reflexivity. Qed.

(** * The life cycle as a whole *)

Lemma slotsToRelease_pos s : (1 ≤ slotsToRelease s)%Z.
Proof. unfold slotsToRelease. lia. Qed.

Lemma slotsToRelease_slots s :
  (1 ≤ slots s)%Z → slotsToRelease s = slots s.
Proof.
  intros H. unfold slotsToRelease, num_or.
  destruct (Z.eqb_spec (slots s) 0); lia.
Qed.

Lemma slotsToRelease_same s s' :
  same_identity s s' → slotsToRelease s' = slotsToRelease s.
Proof. intros (_ & _ & _ & Hsl & _). unfold slotsToRelease. by rewrite Hsl. Qed.

Lemma alter_missing (f : ParkingLot → ParkingLot) (k : oid)
    (m : gmap oid ParkingLot) :
  m !! k = None → alter f k m = m.
Proof.
  intros Hk. apply map_eq. intros j. rewrite lookup_alter.
  case_decide as E; [|done]. subst j. by rewrite Hk.
Qed.

Lemma notifications_Notification_create n d :
  notifications (Notification_create n d) = notifications d ++ [n].
Proof. done. Qed.

#[local] Hint Rewrite notifications_Notification_create : store.

Section Lifecycle.
Variable StringToNumber : string → jsnum.
Variable Date_parse : string → jsdate.

Local Abbreviation requested := (requestedSlots StringToNumber).
Local Abbreviation book := (bookParking StringToNumber Date_parse).
Local Abbreviation dispatch := (handle StringToNumber Date_parse).
Local Abbreviation serve := (run StringToNumber Date_parse).

Lemma startSession_effect u l vt now d :
  effect d (startSession u l vt now d).1.
Proof.
  unfold startSession. destruct (list_find _ _); [by apply effect_none|].
  rewrite ParkingSession_create_valid by done; cbn [fst].
  eapply (effect_create _ _ (schemaSession now u l vt) []).
  - by autorewrite with store.
  - by right.
  - by rewrite syncLotStatus_alter.
  - autorewrite with store. by rewrite app_nil_r.
  - cbn. lia.
Qed.

Lemma bookParking_effect u b now d : effect d (book u b now d).1.
Proof.
  unfold bookParking.
  destruct (body_parkingLotId b) as [id|]; [|by apply effect_none].
  destruct (_ || _); [by apply effect_none|].
  destruct (negb (isInteger (requested b)) || js_lt (requested b) (Num 1))
    eqn:Hv; [by apply effect_none|].
  apply orb_false_elim in Hv as [Hint%negb_false_iff Hge].
  rewrite js_lt_one in Hge by done. apply Z.ltb_ge in Hge.
  destruct (lots d !! id) as [lot|]; [|by apply effect_none].
  destruct (js_lt _ _); [by apply effect_none|].
  unfold ParkingSession_create.
  destruct (castable _); [|by apply effect_none]. cbn [fst].
  eapply (effect_create _ _ _ []).
  - by autorewrite with store.
  - by left.
  - rewrite syncLotStatus_alter, slotsToRelease_slots by done. done.
  - autorewrite with store. by rewrite app_nil_r.
  - cbn. lia.
Qed.

Lemma guardEntry_effect u l now d : effect d (guardEntry u l now d).1.
Proof.
  unfold guardEntry.
  destruct (findLatest _ _ _) as [[i s0]|] eqn:Hf.
  - apply findLatest_Some in Hf as (k & -> & Hk & (_ & _ & Hst) & _).
    cbn [fst plus].
    eapply (effect_activate _ _ k s0 (activate now s0) [_]);
      [done|done|done| |by right|done|done|done].
    rewrite Hst. constructor.
  - rewrite ParkingSession_create_valid by done; cbn [fst].
    eapply (effect_create _ _ (activate now (schemaSession now u l None)) [_]).
    + by autorewrite with store.
    + by right.
    + autorewrite with store. by rewrite syncLotStatus_alter.
    + by autorewrite with store.
    + done.
Qed.

Lemma guardExit_effect u l now d : effect d (guardExit u l now d).1.
Proof.
  unfold guardExit, populate.
  destruct (list_find _ _) as [[i s]|] eqn:Hf; [|by apply effect_none].
  apply list_find_Some in Hf as (Hi & (_ & Hl & Hst) & _).
  destruct (lots d !! parkingLot s) as [lot|]; [|by apply effect_none].
  cbn [fst].
  eapply (effect_close _ _ i s (settle now _ s) [_]);
    [done|by autorewrite with store|done| | | |by autorewrite with store|done].
  - rewrite Hst. constructor.
  - by intros [?|?].
  - autorewrite with store. rewrite syncLotStatus_alter, Hl. done.
Qed.

Lemma cancelBooking_effect u i now d : effect d (cancelBooking u i now d).1.
Proof.
  unfold cancelBooking, populate.
  destruct (sessions d !! i) as [s|] eqn:Hs; [|by apply effect_none].
  destruct (decide _) as [[_ Hst]|]; [|by apply effect_none].
  assert (Ht : transition (status s) (status (cancel now s))).
  { rewrite Hst. constructor. }
  assert (Hclosed : ¬ is_open (cancel now s)) by by intros [?|?].
  destruct (lots d !! parkingLot s) as [lot|] eqn:Hlot;
    cbn [fmap option_fmap option_map fst];
    eapply (effect_close _ _ i s (cancel now s) [_]);
    try done; autorewrite with store; try done.
  - by rewrite syncLotStatus_alter.
  - by rewrite alter_missing.
Qed.

Lemma completeSession_effect u now d : effect d (completeSession u now d).1.
Proof.
  unfold completeSession, populate.
  destruct (list_find _ _) as [[i s]|] eqn:Hf; [|by apply effect_none].
  apply list_find_Some in Hf as (Hi & (_ & Hst) & _).
  destruct (lots d !! parkingLot s) as [lot|]; [|by apply effect_none].
  cbn [fst].
  eapply (effect_close _ _ i s (settle now _ s) []);
    [done|by autorewrite with store|done| | | | |].
  - rewrite Hst. constructor.
  - by intros [?|?].
  - by rewrite syncLotStatus_alter.
  - autorewrite with store. by rewrite app_nil_r.
  - cbn. lia.
Qed.

Lemma handle_effect r now d : effect d (dispatch r now d).1.
Proof.
  destruct r; cbn [handle];
    auto using startSession_effect, bookParking_effect, guardEntry_effect,
      guardExit_effect, cancelBooking_effect, completeSession_effect.
Qed.

(** ** Sessions along a run *)

Lemma effect_session (d d' : db) (i : nat) (s : ParkingSession) :
  effect d d' → sessions d !! i = Some s →
  ∃ s', sessions d' !! i = Some s' ∧ same_identity s s'
        ∧ (s' = s ∨ transition (status s) (status s')).
Proof.
  intros [->|s1 ns Hss _ _ _ _|j s0 s1 ns Hj Hss Hid Ht _ _ _ _
          |j s0 s1 ns Hj Hss Hid Ht _ _ _ _] Hs.
  - exists s. by split_and!; [|..|left].
  - exists s. rewrite Hss, lookup_app_l by by eapply lookup_lt_Some.
    by split_and!; [|..|left].
  - rewrite Hss. destruct (decide (j = i)) as [->|Hne].
    + exists s1. rewrite list_lookup_insert_eq by by eapply lookup_lt_Some.
      rewrite Hs in Hj. injection Hj as <-. by split_and!; [..|right].
    + exists s. rewrite list_lookup_insert_ne by done.
      by split_and!; [|..|left].
  - rewrite Hss. destruct (decide (j = i)) as [->|Hne].
    + exists s1. rewrite list_lookup_insert_eq by by eapply lookup_lt_Some.
      rewrite Hs in Hj. injection Hj as <-. by split_and!; [..|right].
    + exists s. rewrite list_lookup_insert_ne by done.
      by split_and!; [|..|left].
Qed.

Lemma same_identity_trans s1 s2 s3 :
  same_identity s1 s2 → same_identity s2 s3 → same_identity s1 s3.
Proof.
  intros (?&?&?&?&?) (?&?&?&?&?). unfold same_identity.
  split_and!; congruence.
Qed.

(** X1.  However many requests are served, a session stays at its position
    with the user, lot, vehicle type, slot count and creation time it was
    created with, and its status only moves along booked -> active ->
    completed or booked -> canceled. *)
Theorem session_life_cycle (reqs : list (request * Z)) (d : db)
    (i : nat) (s : ParkingSession) :
  sessions d !! i = Some s →
  ∃ s', sessions (serve reqs d) !! i = Some s'
        ∧ same_identity s s'
        ∧ rtc transition (status s) (status s').
Proof.
  revert d s. induction reqs as [|[r now] reqs IH]; intros d s Hs.
  - exists s. by split_and!.
  - cbn [run].
    destruct (effect_session _ _ i s (handle_effect r now d) Hs)
      as (s1 & H1 & Hid1 & Hst1).
    destruct (IH _ _ H1) as (s2 & H2 & Hid2 & Hst2).
    exists s2. split_and!; [done|by eapply same_identity_trans|].
    destruct Hst1 as [->|Ht]; [done|]. by eapply rtc_l.
Qed.

(** ** Lots along a run *)

Lemma alter_synced_lookup delta id (m : gmap oid ParkingLot) k :
  alter (synced delta) id m !! k
  = if decide (id = k) then synced delta <$> m !! k else m !! k.
Proof. rewrite lookup_alter. by case_decide; subst. Qed.

Lemma effect_lots (d d' : db) :
  effect d d' →
  lots d' = lots d ∨ ∃ id delta, lots d' = alter (synced delta) id (lots d).
Proof.
  intros [->|s1 ns _ _ Hl _ _|j s0 s1 ns _ _ _ _ _ Hl _ _
          |j s0 s1 ns _ _ _ _ _ Hl _ _]; eauto.
Qed.

(** X2.  No request adds or removes a lot, and none changes the name, the
    capacity, the rate or the type of a lot: only [occupiedSpots] and
    [status] move. *)
Theorem lots_are_static (reqs : list (request * Z)) (d : db) (k : oid) :
  (lots d !! k = None → lots (serve reqs d) !! k = None) ∧
  (∀ l, lots d !! k = Some l →
        ∃ l', lots (serve reqs d) !! k = Some l'
              ∧ lot_name l' = lot_name l ∧ totalSpots l' = totalSpots l
              ∧ pricePerHour l' = pricePerHour l ∧ lot_type l' = lot_type l).
Proof.
  revert d. induction reqs as [|[r now] reqs IH]; intros d.
  - split; [done|]. intros l Hl. by exists l.
  - cbn [run]. destruct (IH (dispatch r now d).1) as [IHn IHs].
    destruct (effect_lots _ _ (handle_effect r now d)) as [E|(id & dl & E)].
    + rewrite E in IHn, IHs. done.
    + split.
      * intros Hk. apply IHn. rewrite E, alter_synced_lookup, Hk.
        by case_decide.
      * intros l Hl.
        destruct (IHs (if decide (id = k) then synced dl l else l))
          as (l' & Hl' & ? & ? & ? & ?).
        { rewrite E, alter_synced_lookup, Hl. by case_decide. }
        exists l'. split; [done|]. by case_decide.
Qed.

(** X3.  If every lot shows the status its counters give, so it does after
    any sequence of requests. *)
Theorem status_stays_synced (reqs : list (request * Z)) (d : db) :
  status_synced d → status_synced (serve reqs d).
Proof.
  revert d. induction reqs as [|[r now] reqs IH]; intros d Hd; [done|].
  cbn [run]. apply IH. intros k l Hl.
  destruct (effect_lots _ _ (handle_effect r now d)) as [E|(id & dl & E)];
    rewrite E in Hl.
  - by eapply Hd.
  - rewrite alter_synced_lookup in Hl. case_decide.
    + destruct (lots d !! k); [|done]. injection Hl as <-. apply synced_status.
    + by eapply Hd.
Qed.

(** ** Occupancy against the sessions that hold slots *)

Lemma held_closed k s : ¬ is_open s → held k s = 0%Z.
Proof. intros H. unfold held. rewrite decide_False; [done|]. by intros [_ ?]. Qed.

Lemma held_open k s :
  is_open s → held k s = if decide (parkingLot s = k) then slotsToRelease s else 0%Z.
Proof. intros H. unfold held. by repeat case_decide; try tauto. Qed.

Lemma reserved_app (k : oid) (l1 l2 : list ParkingSession) :
  foldr (λ s acc, held k s + acc)%Z 0%Z (l1 ++ l2)
  = (foldr (λ s acc, held k s + acc)%Z 0%Z l1
     + foldr (λ s acc, held k s + acc)%Z 0%Z l2)%Z.
Proof. induction l1 as [|x l1 IH]; cbn -[held]; lia. Qed.

Lemma reserved_insert (k : oid) (l : list ParkingSession) i s0 s' :
  l !! i = Some s0 →
  foldr (λ s acc, held k s + acc)%Z 0%Z (<[i := s']> l)
  = (foldr (λ s acc, held k s + acc)%Z 0%Z l - held k s0 + held k s')%Z.
Proof.
  revert i. induction l as [|x l IH]; intros [|i] Hi; try done.
  - injection Hi as ->. cbn [foldr insert list_insert]. lia.
  - change (<[S i := s']> (x :: l)) with (x :: <[i := s']> l).
    cbn [foldr]. rewrite (IH i) by exact Hi. lia.
Qed.

Lemma transition_from_open (s s' : ParkingSession) :
  transition (status s) (status s') → is_open s.
Proof. unfold is_open. inversion 1; auto. Qed.

Lemma effect_balance (d d' : db) (k : oid) (l : ParkingLot) :
  effect d d' → lots d !! k = Some l →
  ∃ l', lots d' !! k = Some l'
        ∧ (occupiedSpots l' - reserved d' k
           = occupiedSpots l - reserved d k)%Z.
Proof.
  unfold reserved.
  intros [->|s1 ns Hss Hop Hl _ _|j s0 s1 ns Hj Hss Hid Ht Hop Hl _ _
          |j s0 s1 ns Hj Hss Hid Ht Hcl Hl _ _] Hk.
  - by exists l.
  - rewrite Hss, Hl, reserved_app, alter_synced_lookup, Hk. cbn [foldr].
    rewrite held_open by done.
    case_decide; eexists; (split; [done|]); cbn; lia.
  - rewrite Hss, Hl, (reserved_insert _ _ _ _ _ Hj). exists l. split; [done|].
    assert (is_open s0) as Hop0 by by eapply transition_from_open.
    rewrite !held_open by done.
    rewrite (slotsToRelease_same s0 s1) by done.
    destruct Hid as (_ & -> & _). lia.
  - rewrite Hss, Hl, (reserved_insert _ _ _ _ _ Hj), alter_synced_lookup, Hk.
    assert (is_open s0) as Hop0 by by eapply transition_from_open.
    rewrite (held_closed _ s1), (held_open _ s0) by done.
    case_decide; eexists; (split; [done|]); cbn; lia.
Qed.

(** X4.  Occupancy is conserved.  For every lot, [occupiedSpots] minus the
    slots held there by booked and active sessions (a session holds
    [max(1, slots)]) is the same after any sequence of requests. *)
Theorem occupancy_conserved (reqs : list (request * Z)) (d : db) (k : oid)
    (l : ParkingLot) :
  lots d !! k = Some l →
  ∃ l', lots (serve reqs d) !! k = Some l'
        ∧ (occupiedSpots l' - reserved (serve reqs d) k
           = occupiedSpots l - reserved d k)%Z.
Proof.
  revert d l. induction reqs as [|[r now] reqs IH]; intros d l Hk.
  - by exists l.
  - cbn [run].
    destruct (effect_balance _ _ k l (handle_effect r now d) Hk)
      as (l1 & Hl1 & E1).
    destruct (IH _ _ Hl1) as (l2 & Hl2 & E2).
    exists l2. split; [done|lia].
Qed.

(** ** Notifications along a run *)

(** X5.  Notifications are only ever appended, at most one per request. *)
Theorem notifications_append_only (reqs : list (request * Z)) (d : db) :
  ∃ ns, notifications (serve reqs d) = notifications d ++ ns
        ∧ length ns ≤ length reqs.
Proof.
  revert d. induction reqs as [|[r now] reqs IH]; intros d.
  - exists []. by rewrite app_nil_r.
  - cbn [run length].
    destruct (IH (dispatch r now d).1) as (ns2 & E2 & Hlen2).
    assert (∃ ns1, notifications (dispatch r now d).1 = notifications d ++ ns1
                   ∧ length ns1 ≤ 1) as (ns1 & E1 & Hlen1).
    { destruct (handle_effect r now d)
        as [->|s1 ns _ _ _ ? ?|j s0 s1 ns _ _ _ _ _ _ ? ?
            |j s0 s1 ns _ _ _ _ _ _ ? ?]; eauto.
      exists []. rewrite app_nil_r. split; [done|cbn; lia]. }
    exists (ns1 ++ ns2). rewrite E2, E1, <- app_assoc. split; [done|].
    rewrite length_app. lia.
Qed.

(** ** Answers and writes *)





(** ** Cancelling a booking *)

Lemma slotsToRelease_max s : slotsToRelease s = Z.max 1 (slots s).
Proof.
  unfold slotsToRelease, num_or. destruct (Z.eqb_spec (slots s) 0); lia.
Qed.

Lemma cancelBooking_refused (u : oid) (i : nat) (now : Z) (d : db) :
  (∀ s, sessions d !! i = Some s → user s ≠ u ∨ status s ≠ booked) →
  cancelBooking u i now d = (d, not_cancelable).
Proof.
  unfold cancelBooking. intros Hno.
  destruct (sessions d !! i) as [s|]; [|done].
  destruct (decide _) as [[Hu Hst]|]; [|done].
  by destruct (Hno s eq_refl).
Qed.

Lemma cancelBooking_done (u : oid) (i : nat) (now : Z) (d : db)
    (s : ParkingSession) :
  sessions d !! i = Some s → user s = u → status s = booked →
  cancelBooking u i now d
  = (Notification_create
       (cancel_notification u ((λ _, parkingLot s) <$> lots d !! parkingLot s)
          (lots d !! parkingLot s) i)
       (set_lots
          (alter (synced (- slotsToRelease s)) (parkingLot s) (lots d))
          (session_save i (cancel now s) d)),
     Json 200 true None (Some (i, cancel now s))).
Proof.
  intros Hs Hu Hst. unfold cancelBooking, populate.
  rewrite Hs, decide_True by done.
  destruct (lots d !! parkingLot s) as [lot|] eqn:Hlot;
    cbn [fmap option_fmap option_map].
  - by rewrite syncLotStatus_alter.
  - rewrite alter_missing by done. by destruct d.
Qed.

(** X7.  [cancelBooking] answers 404 and writes nothing unless the id is
    that of a booked session of the caller.  Then the session becomes
    canceled with end time now and is not billed, [max(1, slots)] slots go
    back to its lot and to no other, and one "booking" notification is
    written for the caller. *)
Theorem cancelBooking_spec (u : oid) (i : nat) (now : Z) (d : db) :
  ((∀ s, sessions d !! i = Some s → user s ≠ u ∨ status s ≠ booked) →
   cancelBooking u i now d = (d, not_cancelable)) ∧
  (∀ s, sessions d !! i = Some s → user s = u → status s = booked →
     ∃ s' n,
       (cancelBooking u i now d).2 = Json 200 true None (Some (i, s'))
       ∧ sessions (cancelBooking u i now d).1 = <[i := s']> (sessions d)
       ∧ same_identity s s' ∧ status s' = canceled
       ∧ startTime s' = startTime s ∧ endTime s' = Some (DateMs now)
       ∧ totalAmount s' = totalAmount s
       ∧ occupancy (cancelBooking u i now d).1 (parkingLot s)
         = (λ o, o - Z.max 1 (slots s))%Z <$> occupancy d (parkingLot s)
       ∧ (∀ k, k ≠ parkingLot s →
               lots (cancelBooking u i now d).1 !! k = lots d !! k)
       ∧ notifications (cancelBooking u i now d).1 = notifications d ++ [n]
       ∧ n_type n = "booking" ∧ n_user n = u ∧ n_session n = i).
Proof.
  split; [apply cancelBooking_refused|].
  intros s Hs Hu Hst. rewrite (cancelBooking_done u i now d s) by done.
  exists (cancel now s),
    (cancel_notification u ((λ _, parkingLot s) <$> lots d !! parkingLot s)
       (lots d !! parkingLot s) i).
  cbn [fst snd]. split_and!; try done.
  - unfold occupancy. cbn [lots Notification_create set_lots].
    rewrite alter_synced_lookup, decide_True by done.
    destruct (lots d !! parkingLot s) as [lot|]; [|done]. cbn.
    rewrite <- slotsToRelease_max. by f_equal.
  - intros k Hk. cbn [lots Notification_create set_lots].
    rewrite alter_synced_lookup. by rewrite decide_False.
Qed.

(** X8.  Cancelling the same booking a second time is always answered 404
    and writes nothing, whatever the first call did. *)
Theorem cancelBooking_twice (u : oid) (i : nat) (now now' : Z) (d : db) :
  cancelBooking u i now' (cancelBooking u i now d).1
  = ((cancelBooking u i now d).1, not_cancelable).
Proof.
  destruct (sessions d !! i) as [s|] eqn:Hs.
  - destruct (decide (user s = u ∧ status s = booked)) as [[Hu Hst]|Hno].
    + rewrite (cancelBooking_done u i now d s) by done. cbn [fst].
      apply cancelBooking_refused. intros s2.
      cbn [sessions Notification_create set_lots session_save set_sessions].
      rewrite list_lookup_insert_eq by by eapply lookup_lt_Some.
      intros [= <-]. by right.
    + assert (∀ s2, sessions d !! i = Some s2 →
                    user s2 ≠ u ∨ status s2 ≠ booked) as Hall.
      { intros s2 Hs2. rewrite Hs in Hs2. injection Hs2 as <-.
        destruct (decide (user s = u)); [|by left].
        right. intros ?. by apply Hno. }
      rewrite (cancelBooking_refused u i now d Hall). cbn [fst].
      by apply cancelBooking_refused.
  - assert (∀ s2, sessions d !! i = Some s2 →
                  user s2 ≠ u ∨ status s2 ≠ booked) as Hall.
    { intros s2 Hs2. by rewrite Hs in Hs2. }
    rewrite (cancelBooking_refused u i now d Hall). cbn [fst].
    by apply cancelBooking_refused.
Qed.

(** ** Booking, then cancelling *)

Lemma bookParking_done (u : oid) (b : BookBody) (now : Z) (d : db) :
  succeeded (book u b now d).2 = true →
  ∃ id lot s,
    body_parkingLotId b = Some id ∧ lots d !! id = Some lot
    ∧ (1 ≤ slots s)%Z
    ∧ (occupiedSpots lot + slots s ≤ totalSpots lot)%Z
    ∧ user s = u ∧ parkingLot s = id ∧ status s = booked
    ∧ book u b now d
      = (set_lots (alter (synced (slots s)) id (lots d))
           (set_sessions (sessions d ++ [s]) d),
         Json 201 true None (Some (length (sessions d), s))).
Proof.
  unfold bookParking.
  destruct (body_parkingLotId b) as [id|]; [|done].
  destruct (_ || _); [done|].
  destruct (negb (isInteger (requested b)) || js_lt (requested b) (Num 1))
    eqn:Hv; [done|].
  apply orb_false_elim in Hv as [Hint%negb_false_iff Hge].
  rewrite js_lt_one in Hge by done. apply Z.ltb_ge in Hge.
  destruct (lots d !! id) as [lot|] eqn:Hlot; [|done].
  rewrite num_or_zero, js_lt_available by done.
  destruct (Z.ltb_spec (totalSpots lot - occupiedSpots lot)
              (int_value (requested b))) as [|Hcap]; [done|].
  unfold ParkingSession_create. destruct (castable _); [|done].
  intros _. cbn [fst snd].
  match goal with
  | |- context [Json 201 true None (Some (_, ?x))] => exists id, lot, x
  end.
  split_and!; cbn [slots user parkingLot status]; try done; [lia|].
  by rewrite syncLotStatus_alter.
Qed.

Lemma synced_back (n : Z) (l : ParkingLot) :
  synced (- n) (synced n l)
  = set_lot_status (resolveLotStatus (occupiedSpots l) (totalSpots l)) l.
Proof.
  destruct l as [nm tot occ st price ty]. unfold synced, set_lot_status,
    inc_occupiedSpots. cbn. by replace (occ + n + - n)%Z with occ by lia.
Qed.

(** X9.  A booking that is cancelled, under the id its answer carries,
    leaves no trace in the lots: every lot has the occupancy it had before
    the booking, and the lots are exactly as before when their statuses
    were in line with their counters. *)
Theorem book_then_cancel (u : oid) (b : BookBody) (now now' : Z) (d : db) :
  succeeded (book u b now d).2 = true →
  fst <$> res_data (book u b now d).2 = Some (length (sessions d))
  ∧ res_code
    (cancelBooking u (length (sessions d)) now' (book u b now d).1).2
  = Some 200
  ∧ (∀ k, occupancy
            (cancelBooking u (length (sessions d)) now' (book u b now d).1).1 k
          = occupancy d k)
  ∧ (status_synced d →
     lots (cancelBooking u (length (sessions d)) now' (book u b now d).1).1
     = lots d).
Proof.
  intros Hok.
  destruct (bookParking_done u b now d Hok)
    as (id & lot & s & _ & Hlot & Hn & _ & Hu & Hl & Hst & ->).
  cbn [fst].
  rewrite (cancelBooking_done u _ now' _ s); [|by apply list_lookup_middle|done..].
  cbn [fst snd res_code lots Notification_create set_lots session_save
       set_sessions sessions].
  rewrite Hl, slotsToRelease_slots by done.
  assert (∀ k, alter (synced (- slots s)) id
                 (alter (synced (slots s)) id (lots d)) !! k
               = if decide (id = k)
                 then Some (set_lot_status
                              (resolveLotStatus (occupiedSpots lot)
                                 (totalSpots lot)) lot)
                 else lots d !! k) as Hlook.
  { intros k. rewrite !alter_synced_lookup. case_decide as E; [|done].
    subst k. rewrite Hlot. cbn. by rewrite synced_back. }
  split_and!; [done|done| |].
  - intros k. unfold occupancy. cbn [lots]. rewrite Hlook.
    case_decide as E; [|done]. subst k. by rewrite Hlot.
  - intros Hsync. apply map_eq. intros k. rewrite Hlook.
    case_decide as E; [|done]. subst k. rewrite Hlot. f_equal.
    rewrite <- (Hsync _ _ Hlot). apply set_lot_status_id.
Qed.

(** ** Capacity *)

Lemma release_keeps_capacity (d : db) (id : oid) (n : Z) :
  (0 ≤ n)%Z → within_capacity d →
  ∀ k l, alter (synced (- n)) id (lots d) !! k = Some l →
         (occupiedSpots l ≤ totalSpots l)%Z.
Proof.
  intros Hn Hd k l. rewrite alter_synced_lookup. case_decide.
  - destruct (lots d !! k) as [l0|] eqn:Hk; [|done]. intros [= <-].
    specialize (Hd _ _ Hk). cbn. lia.
  - apply Hd.
Qed.

(** X10.  [bookParking] never books beyond capacity, and the three
    requests that give slots back cannot exceed it either: if no lot is
    over capacity, none is after [bookParking], [guardExit],
    [cancelBooking] or [completeSession].  [startSession] has no such
    check: on a full lot it still adds one. *)
Theorem capacity_is_kept (r : request) (now : Z) (d : db) :
  within_capacity d →
  (match r with
   | StartSession _ _ _ | GuardEntry _ _ => False
   | _ => True
   end →
   within_capacity (dispatch r now d).1) ∧
  (∀ u k vt l,
     lots d !! k = Some l → occupiedSpots l = totalSpots l →
     list_find (active_of u) (sessions d) = None →
     ¬ within_capacity (startSession u k vt now d).1).
Proof.
  intros Hd. split.
  - destruct r as [u l vt|u b|u l|u l|u i|u]; cbn [handle]; intros Hr;
      try done.
    + destruct (succeeded (book u b now d).2) eqn:Hok.
      * destruct (bookParking_done u b now d Hok)
          as (id & lot & s & _ & Hlot & Hn & Hcap & _ & _ & _ & ->).
        cbn [fst]. intros k l. cbn [lots set_lots].
        rewrite alter_synced_lookup. case_decide as E; [|apply Hd].
        subst k. rewrite Hlot. intros [= <-]. cbn. lia.
      * unfold bookParking in *.
        destruct (body_parkingLotId b) as [id|]; [|done].
        destruct (_ || _); [done|]. destruct (_ || _); [done|].
        destruct (lots d !! id) as [lot|]; [|done].
        destruct (js_lt _ _); [done|].
        unfold ParkingSession_create in *. by destruct (castable _).
    + destruct (guardExit_cases u l now d)
        as [[_ E]|[(i & s & _ & _ & E)|(i & s & lot & s' & _ & _ & _ & _ & Hl & _)]];
        rewrite ?E; try done.
      intros k l0. rewrite Hl. apply release_keeps_capacity; [|done].
      pose proof (slotsToRelease_pos s'). lia.
    + destruct (sessions d !! i) as [s|] eqn:Hs.
      * destruct (decide (user s = u ∧ status s = booked)) as [[Hu Hst]|Hno].
        -- rewrite (cancelBooking_done u i now d s) by done.
           intros k l0. cbn [fst lots Notification_create set_lots].
           apply release_keeps_capacity; [|done].
           pose proof (slotsToRelease_pos s). lia.
        -- unfold cancelBooking. rewrite Hs. by rewrite decide_False.
      * unfold cancelBooking. by rewrite Hs.
    + destruct (completeSession_cases u now d)
        as [[_ E]|[(i & s & _ & _ & E)|(i & s & lot & s' & _ & _ & _ & _ & Hl & _)]];
        rewrite ?E; try done.
      intros k l0. rewrite Hl. apply release_keeps_capacity; [|done].
      pose proof (slotsToRelease_pos s'). lia.
  - intros u k vt l Hk Hfull Hnone Hcap.
    unfold startSession in Hcap. rewrite Hnone in Hcap.
    rewrite ParkingSession_create_valid in Hcap by done; cbn [fst] in Hcap.
    specialize (Hcap k (synced 1 l)).
    rewrite syncLotStatus_lookup, decide_True in Hcap by done.
    autorewrite with store in Hcap. rewrite Hk in Hcap.
    specialize (Hcap eq_refl). cbn in Hcap. lia.
Qed.

(** ** One active session per user *)

Lemma one_active_append (d d' : db) (s : ParkingSession) :
  one_active_each d → sessions d' = sessions d ++ [s] →
  (status s = active →
   ∀ j x, sessions d !! j = Some x → status x = active → user x ≠ user s) →
  one_active_each d'.
Proof.
  intros Hd Hss Hnew i j si sj. rewrite Hss.
  intros Hi Hj Hai Haj Hu.
  apply lookup_app_Some in Hi as [Hi|[Hil Hi]];
    apply lookup_app_Some in Hj as [Hj|[Hjl Hj]].
  - by eapply Hd.
  - apply list_lookup_singleton_Some in Hj as [_ <-].
    by destruct (Hnew Haj i si).
  - apply list_lookup_singleton_Some in Hi as [_ <-].
    by destruct (Hnew Hai j sj).
  - apply list_lookup_singleton_Some in Hi as [? _].
    apply list_lookup_singleton_Some in Hj as [? _]. lia.
Qed.

Lemma one_active_insert (d d' : db) (k : nat) (s0 s' : ParkingSession) :
  one_active_each d → sessions d !! k = Some s0 →
  sessions d' = <[k := s']> (sessions d) → status s' ≠ active →
  one_active_each d'.
Proof.
  intros Hd Hk Hss Hst i j si sj. rewrite Hss. intros Hi Hj Hai Haj Hu.
  assert (∀ n x, <[k := s']> (sessions d) !! n = Some x → status x = active →
                 sessions d !! n = Some x) as Hold.
  { intros n x Hn Hx. destruct (decide (k = n)) as [->|Hne].
    - rewrite list_lookup_insert_eq in Hn by by eapply lookup_lt_Some.
      by injection Hn as <-.
    - by rewrite list_lookup_insert_ne in Hn. }
  eapply Hd; eauto.
Qed.

Lemma bookParking_failed (u : oid) (b : BookBody) (now : Z) (d : db) :
  succeeded (book u b now d).2 = false → (book u b now d).1 = d.
Proof.
  unfold bookParking.
  destruct (body_parkingLotId b) as [id|]; [|done].
  destruct (_ || _); [done|]. destruct (_ || _); [done|].
  destruct (lots d !! id) as [lot|]; [|done].
  destruct (js_lt _ _); [done|].
  unfold ParkingSession_create. by destruct (castable _).
Qed.

(** X11.  [startSession], [bookParking], [guardExit], [cancelBooking] and
    [completeSession] keep the rule that no user has two active sessions.
    [guardEntry] does not: let in, a user who already has an active session
    has two. *)
Theorem one_active_session_kept (r : request) (now : Z) (d : db) :
  (one_active_each d →
   match r with GuardEntry _ _ => False | _ => True end →
   one_active_each (dispatch r now d).1) ∧
  (∀ u l i s, sessions d !! i = Some s → active_of u s →
              ¬ one_active_each (guardEntry u l now d).1).
Proof.
  split.
  - intros Hd.
    destruct r as [u l vt|u b|u l|u l|u i|u]; cbn [handle]; intros Hr;
      try done.
    + unfold startSession.
      destruct (list_find _ _) eqn:Hf; [done|].
      rewrite ParkingSession_create_valid by done; cbn [fst].
      eapply (one_active_append d _ (schemaSession now u l vt)); [done| |].
      * by autorewrite with store.
      * intros _ j x Hj Hx Hux.
        eapply list_find_None_iff in Hf; [|by eapply list_elem_of_lookup_2].
        by apply Hf.
    + destruct (succeeded (book u b now d).2) eqn:Hok.
      * destruct (bookParking_done u b now d Hok)
          as (id & lot & s & _ & _ & _ & _ & _ & _ & Hst & ->).
        eapply (one_active_append d _ s); [done|done|]. by rewrite Hst.
      * by rewrite bookParking_failed.
    + destruct (guardExit_cases u l now d)
        as [[_ E]|[(i & s & _ & _ & E)|(i & s & lot & s' & Hf & _ & -> & Hss & _)]];
        rewrite ?E; try done.
      apply list_find_Some in Hf as (Hi & _).
      by eapply (one_active_insert d _ i s).
    + destruct (sessions d !! i) as [s|] eqn:Hs.
      * destruct (decide (user s = u ∧ status s = booked)) as [[Hu Hst]|Hno].
        -- rewrite (cancelBooking_done u i now d s) by done.
           by eapply (one_active_insert d _ i s (cancel now s)).
        -- unfold cancelBooking. rewrite Hs. by rewrite decide_False.
      * unfold cancelBooking. by rewrite Hs.
    + destruct (completeSession_cases u now d)
        as [[_ E]|[(i & s & _ & _ & E)|(i & s & lot & s' & Hf & _ & -> & Hss & _)]];
        rewrite ?E; try done.
      apply list_find_Some in Hf as (Hi & _).
      by eapply (one_active_insert d _ i s).
  - intros u l i s Hi [Hu Hst] Hone. unfold guardEntry in Hone.
    destruct (findLatest _ _ _) as [[k s0]|] eqn:Hf.
    + apply findLatest_Some in Hf as (k' & -> & Hk & (Hu0 & _ & Hst0) & _).
      cbn [fst plus] in Hone.
      assert (k' ≠ i) as Hne by (intros ->; congruence).
      apply Hne. symmetry.
      apply (Hone i k' s (activate now s0)); autorewrite with store;
        [by rewrite list_lookup_insert_ne| |done|done|].
      * apply list_lookup_insert_eq. by eapply lookup_lt_Some.
      * cbn. congruence.
    + rewrite ParkingSession_create_valid in Hone by done; cbn [fst] in Hone.
      pose proof (lookup_lt_Some _ _ _ Hi) as Hlt.
      assert (i = length (sessions d)); [|lia].
      apply (Hone i _ s (activate now (schemaSession now u l None)));
        autorewrite with store; [by rewrite lookup_app_l| |done|done|done].
      rewrite lookup_app_r by done. by rewrite Nat.sub_diag.
Qed.

(** ** The routes that only read *)

#[local] Instance newer_first_total : Total newer_first.
Proof. intros a b. unfold newer_first. lia. Qed.

#[local] Instance newer_first_trans : Transitive newer_first.
Proof. intros a b c. unfold newer_first. lia. Qed.

Lemma length_filter_imap {A B} (f : nat → A → B) (P : A → Prop) (Q : B → Prop)
    `{!∀ x, Decision (P x)} `{!∀ y, Decision (Q y)} (l : list A) :
  (∀ i x, Q (f i x) ↔ P x) →
  length (filter Q (imap f l)) = length (filter P l).
Proof.
  revert f. induction l as [|x l IH]; intros f HPQ; [done|].
  cbn [imap]. rewrite !filter_cons.
  specialize (IH (f ∘ S)). 
  destruct (decide (Q (f 0 x))) as [HQ|HQ], (decide (P x)) as [HP|HP];
    cbn [length]; try (exfalso; by apply HPQ in HQ || apply HPQ in HP).
  - f_equal. apply IH. intros i y. apply HPQ.
  - exfalso. apply HQ. by apply HPQ.
  - apply IH. intros i y. apply HPQ.
Qed.

(** X12.  [getUserBookings] lists the caller's sessions and nothing else,
    each once and with its lot joined, newest first. *)
Theorem getUserBookings_spec (u : oid) (d : db) :
  StronglySorted newer_first (getUserBookings u d) ∧
  (∀ i s lot, (i, s, lot) ∈ getUserBookings u d ↔
              sessions d !! i = Some s ∧ user s = u
              ∧ lot = lots d !! parkingLot s) ∧
  length (getUserBookings u d)
  = length (filter (λ s, user s = u) (sessions d)).
Proof.
  unfold getUserBookings. split_and!.
  - apply StronglySorted_merge_sort; apply _.
  - intros i s lot. rewrite merge_sort_Permutation, list_elem_of_filter.
    rewrite elem_of_lookup_imap. unfold populated, populate. cbn. split.
    + intros (Hu & j & x & [= -> -> ->] & Hj). done.
    + intros (Hi & Hu & ->). split; [done|]. by exists i, s.
  - rewrite merge_sort_Permutation.
    by apply (length_filter_imap (populated d) (λ s, user s = u)).
Qed.

Lemma list_find_active_at (u l : oid) (ss : list ParkingSession) i s :
  list_find (active_of u) ss = Some (i, s) → parkingLot s = l →
  list_find (active_at u l) ss = Some (i, s).
Proof.
  intros (Hi & [Hu Hst] & Hfirst)%list_find_Some Hl.
  apply list_find_Some. split_and!; [done|done|].
  intros j y Hj Hlt (Hyu & _ & Hyst). by apply (Hfirst j y).
Qed.

(** X13.  [getActiveSession] shows the session the other routes act on:
    [startSession] is refused exactly when it shows one, [completeSession]
    answers 404 exactly when it shows none, and otherwise
    [completeSession] settles the very session shown, at the rate of the
    lot shown, or fails when no lot is shown. *)
Theorem getActiveSession_agrees (u : oid) (now : Z) (d : db) :
  (getActiveSession u d = None ↔
   res_code (completeSession u now d).2 = Some 404) ∧
  (∀ l vt, is_Some (getActiveSession u d) ↔
           res_code (startSession u l vt now d).2 = Some 400) ∧
  (∀ i s lot,
     getActiveSession u d = Some (i, s, Some lot) →
     sessions d !! i = Some s ∧ user s = u ∧ status s = active
     ∧ res_data (completeSession u now d).2
       = Some (i, settle now (computeCharge (DateMs now) (startTime s)
                                (pricePerHour lot)) s)) ∧
  (∀ i s, getActiveSession u d = Some (i, s, None) →
          completeSession u now d = (d, NextError null_deref)).
Proof.
  unfold getActiveSession, completeSession, startSession, populated, populate.
  destruct (list_find (active_of u) (sessions d)) as [[i s]|] eqn:Hf;
    cbn [fmap option_fmap option_map fst snd].
  - apply list_find_Some in Hf as (Hi & [Hu Hst] & _).
    split_and!.
    + split; [done|]. by destruct (lots d !! parkingLot s).
    + intros l vt. split; [done|]. intros _. by eexists.
    + intros i' s' lot [= -> -> Hlot]. rewrite Hlot. done.
    + intros i' s' [= -> -> Hlot]. by rewrite Hlot.
  - by split_and!.
Qed.

(** X14.  For a user whose first active session is at lot [l], the guard's
    exit at [l] and the user's own [completeSession] settle the same
    session in the same way: same sessions, same lots, same data in the
    answer.  Only the guard's exit writes a notification. *)
Theorem guardExit_agrees_with_completeSession (u l : oid) (now : Z) (d : db)
    (i : nat) (s : ParkingSession) (lot : option ParkingLot) :
  getActiveSession u d = Some (i, s, lot) → parkingLot s = l →
  sessions (guardExit u l now d).1 = sessions (completeSession u now d).1
  ∧ lots (guardExit u l now d).1 = lots (completeSession u now d).1
  ∧ res_code (guardExit u l now d).2 = res_code (completeSession u now d).2
  ∧ res_data (guardExit u l now d).2 = res_data (completeSession u now d).2
  ∧ notifications (completeSession u now d).1 = notifications d
  ∧ (is_Some lot →
     ∃ n, notifications (guardExit u l now d).1 = notifications d ++ [n]
          ∧ n_type n = "checkout" ∧ n_user n = u ∧ n_session n = i).
Proof.
  unfold getActiveSession, populated, populate.
  destruct (list_find (active_of u) (sessions d)) as [[i' s']|] eqn:Hf;
    [|done].
  cbn [fmap option_fmap option_map fst snd]. intros [= -> -> <-] Hl.
  unfold guardExit, completeSession, populate.
  rewrite Hf, (list_find_active_at u l _ i s Hf Hl).
  destruct (lots d !! parkingLot s) as [lt|] eqn:Hlot; cbn [fst snd].
  - autorewrite with store. rewrite Hl.
    split_and!; try done; intros _; by eexists.
  - split_and!; try done; by intros [? ?].
Qed.

(** ** Billing at the boundaries *)

(** X15.  The charge is one hour's rate for anything up to one hour, also
    when the start time lies after the end time; past [k] full hours and up
    to [k + 1] it is [k + 1] times the rate; it never goes down when the
    end time moves on; and it is NaN when the start time is not a date. *)
Theorem billing_boundaries (now t0 : Z) (rate : N) :
  ((now - t0 ≤ 3600000)%Z →
   computeCharge (DateMs now) (DateMs t0) rate = IntNum (Z.of_N rate)) ∧
  (∀ k, (1 ≤ k)%Z → (k * 3600000 < now - t0 ≤ (k + 1) * 3600000)%Z →
        computeCharge (DateMs now) (DateMs t0) rate
        = IntNum ((k + 1) * Z.of_N rate)) ∧
  (∀ now', (now ≤ now')%Z →
     ∃ a b, computeCharge (DateMs now) (DateMs t0) rate = IntNum a
            ∧ computeCharge (DateMs now') (DateMs t0) rate = IntNum b
            ∧ (a ≤ b)%Z) ∧
  computeCharge (DateMs now) InvalidDate rate = IntNaN.
Proof.
  split_and!; [| | |done].
  - intros He. rewrite computeCharge_valid, Qceiling_hours. f_equal.
    pose proof (Z.div_mod (- (now - t0)) 3600000 ltac:(lia)).
    pose proof (Z.mod_pos_bound (- (now - t0)) 3600000 ltac:(lia)).
    replace (Z.max 1 (- (- (now - t0) / 3600000))) with 1%Z by lia. lia.
  - intros k Hk He. rewrite computeCharge_valid, Qceiling_hours. f_equal.
    pose proof (Z.div_mod (- (now - t0)) 3600000 ltac:(lia)).
    pose proof (Z.mod_pos_bound (- (now - t0)) 3600000 ltac:(lia)).
    replace (Z.max 1 (- (- (now - t0) / 3600000))) with (k + 1)%Z by lia.
    done.
  - intros now' Hle. rewrite !computeCharge_valid, !Qceiling_hours.
    eexists _, _. split_and!; [done|done|].
    pose proof (Z.div_mod (- (now - t0)) 3600000 ltac:(lia)).
    pose proof (Z.mod_pos_bound (- (now - t0)) 3600000 ltac:(lia)).
    pose proof (Z.div_mod (- (now' - t0)) 3600000 ltac:(lia)).
    pose proof (Z.mod_pos_bound (- (now' - t0)) 3600000 ltac:(lia)).
    apply Z.mul_le_mono_nonneg_r; lia.
Qed.

(** ** What a settlement gives back *)

(** X16.  A settlement, by [guardExit] or [completeSession], closes an
    active session of the user: the session keeps its identity and start
    time, ends now and is completed; no other session is touched;
    [max(1, slots)] slots (so at least one, whatever [slots] holds) go back
    to the lot of the session and no other lot changes. *)
Theorem settlement_releases (u l : oid) (now : Z) (d : db)
    (r : db * response) (msg : option string) (i : nat)
    (s' : ParkingSession) :
  r = guardExit u l now d ∨ r = completeSession u now d →
  r.2 = Json 200 true msg (Some (i, s')) →
  ∃ s, sessions d !! i = Some s ∧ user s = u ∧ status s = active
       ∧ same_identity s s' ∧ startTime s' = startTime s
       ∧ endTime s' = Some (DateMs now) ∧ status s' = completed
       ∧ sessions r.1 !! i = Some s'
       ∧ (∀ j, j ≠ i → sessions r.1 !! j = sessions d !! j)
       ∧ occupancy r.1 (parkingLot s)
         = (λ o, o - Z.max 1 (slots s))%Z <$> occupancy d (parkingLot s)
       ∧ (∀ k, k ≠ parkingLot s → lots r.1 !! k = lots d !! k).
Proof.
  intros Hr Hres.
  assert (∃ s lot, sessions d !! i = Some s ∧ user s = u ∧ status s = active
                   ∧ lots d !! parkingLot s = Some lot
                   ∧ s' = settle now (computeCharge (DateMs now) (startTime s)
                                        (pricePerHour lot)) s
                   ∧ sessions r.1 = <[i := s']> (sessions d)
                   ∧ lots r.1 = alter (synced (- slotsToRelease s'))
                                  (parkingLot s) (lots d))
    as (s & lot & Hi & Hu & Hst & Hlot & -> & Hss & Hl).
  { destruct Hr as [-> | ->].
    - destruct (guardExit_cases u l now d)
        as [[_ E]|[(j & s0 & _ & _ & E)|(j & s0 & lot & s1 & Hf & Hlot & -> & Hss & Hl & E)]];
        rewrite E in Hres; try done.
      injection Hres as _ <- <-.
      apply list_find_Some in Hf as (Hj & (Hu & Hpl & Hst) & _).
      exists s0, lot. subst l. by split_and!.
    - destruct (completeSession_cases u now d)
        as [[_ E]|[(j & s0 & _ & _ & E)|(j & s0 & lot & s1 & Hf & Hlot & -> & Hss & Hl & _ & E)]];
        rewrite E in Hres; try done.
      injection Hres as _ <- <-.
      apply list_find_Some in Hf as (Hj & (Hu & Hst) & _).
      exists s0, lot. by split_and!. }
  exists s. split_and!; try done.
  - rewrite Hss. apply list_lookup_insert_eq. by eapply lookup_lt_Some.
  - intros j Hj. rewrite Hss. by apply list_lookup_insert_ne.
  - unfold occupancy. rewrite Hl, alter_synced_lookup, decide_True, Hlot by done.
    cbn. rewrite <- slotsToRelease_max. by f_equal.
  - intros k Hk. rewrite Hl, alter_synced_lookup. by rewrite decide_False.
Qed.

(** ** A guard entry, then a guard exit *)

(** X17.  After a guard entry for a user at a lot, a guard exit for the
    same user and lot never answers 404: it answers 200 when the lot
    exists, and fails with an internal error when it does not. *)
Theorem guardEntry_then_guardExit (u l : oid) (now now' : Z) (d : db) :
  res_code (guardExit u l now' (guardEntry u l now d).1).2 ≠ Some 404
  ∧ (is_Some (lots d !! l) →
     res_code (guardExit u l now' (guardEntry u l now d).1).2 = Some 200)
  ∧ (lots d !! l = None →
     guardExit u l now' (guardEntry u l now d).1
     = ((guardEntry u l now d).1, NextError null_deref)).
Proof.
  assert (∃ i s, sessions (guardEntry u l now d).1 !! i = Some s
                 ∧ active_at u l s) as (i & s & Hi & Hact).
  { unfold guardEntry.
    destruct (findLatest _ _ _) as [[k s0]|] eqn:Hf.
    - apply findLatest_Some in Hf as (k' & -> & Hk & (Hu & Hl & _) & _).
      exists k', (activate now s0). cbn [fst plus]. autorewrite with store.
      split; [|done].
      apply list_lookup_insert_eq. by eapply lookup_lt_Some.
    - exists (length (sessions d)), (activate now (schemaSession now u l None)).
      rewrite ParkingSession_create_valid by done; cbn [fst]. autorewrite with store. split; [|done].
      rewrite lookup_app_r by done. by rewrite Nat.sub_diag. }
  assert (lots (guardEntry u l now d).1 !! l = None ↔ lots d !! l = None)
    as Hdom.
  { destruct (effect_lots _ _ (guardEntry_effect u l now d))
      as [->|(id & dl & ->)]; [done|].
    rewrite alter_synced_lookup. case_decide; [|done].
    by destruct (lots d !! l). }
  destruct (guardExit_cases u l now' (guardEntry u l now d).1)
    as [[Hnone _]|[(j & s1 & Hf & Hlot & E)|(j & s1 & lot & s2 & Hf & Hlot & _ & _ & _ & E)]].
  - exfalso. eapply list_find_None_iff in Hnone; [|by eapply list_elem_of_lookup_2].
    done.
  - apply list_find_Some in Hf as (_ & (_ & Hl1 & _) & _).
    rewrite Hl1 in Hlot. apply Hdom in Hlot.
    rewrite E. split_and!; [done| |done]. rewrite Hlot. by intros [? ?].
  - apply list_find_Some in Hf as (_ & (_ & Hl1 & _) & _).
    rewrite Hl1 in Hlot. rewrite E. split_and!; [done|done|].
    intros Hno%Hdom. by rewrite Hno in Hlot.
Qed.

(** ** Which requests notify *)

(** X18.  [startSession], [bookParking] and [completeSession] never write
    a notification.  [guardEntry] always writes one "checkin" notification
    for the user, naming the lot and the session it answers with, and
    [guardExit] writes one "checkout" notification exactly when it
    succeeds. *)
Theorem notification_emission (now : Z) (d : db) :
  (∀ u l vt, notifications (startSession u l vt now d).1 = notifications d) ∧
  (∀ u b, notifications (book u b now d).1 = notifications d) ∧
  (∀ u, notifications (completeSession u now d).1 = notifications d) ∧
  (∀ u l, ∃ n s,
     notifications (guardEntry u l now d).1 = notifications d ++ [n]
     ∧ n_type n = "checkin" ∧ n_user n = u ∧ n_parkingLot n = Some l
     ∧ res_data (guardEntry u l now d).2 = Some (n_session n, s)) ∧
  (∀ u l,
     if succeeded (guardExit u l now d).2
     then ∃ n s,
       notifications (guardExit u l now d).1 = notifications d ++ [n]
       ∧ n_type n = "checkout" ∧ n_user n = u ∧ n_parkingLot n = Some l
       ∧ res_data (guardExit u l now d).2 = Some (n_session n, s)
     else notifications (guardExit u l now d).1 = notifications d).
Proof.
  split_and!.
  - intros u l vt. unfold startSession. destruct (list_find _ _); [done|].
    rewrite ParkingSession_create_valid by done; cbn [fst]. by autorewrite with store.
  - intros u b. destruct (succeeded (book u b now d).2) eqn:Hok.
    + destruct (bookParking_done u b now d Hok)
        as (id & lot & s & _ & _ & _ & _ & _ & _ & _ & ->). done.
    + by rewrite bookParking_failed.
  - intros u.
    destruct (completeSession_cases u now d)
      as [[_ E]|[(i & s & _ & _ & E)|(i & s & lot & s' & _ & _ & _ & _ & _ & Hn & _)]];
      rewrite ?E; done.
  - intros u l. unfold guardEntry.
    destruct (findLatest _ _ _) as [[i s0]|];
      rewrite ?ParkingSession_create_valid by done;
      cbn [fst snd res_data]; eexists _, _;
      autorewrite with store; by split_and!.
  - intros u l. unfold guardExit, populate.
    destruct (list_find _ _) as [[i s]|]; [|done].
    destruct (lots d !! parkingLot s) as [lot|]; [|done].
    cbn [fst snd succeeded res_data]. eexists _, _.
    autorewrite with store. by split_and!.
Qed.

End Lifecycle.

(** * The life cycle at work *)

Lemma status_synced_sample : status_synced Sample.store.
Proof.
  intros k l Hl. unfold Sample.store in Hl. cbn [lots] in Hl.
  apply lookup_singleton_Some in Hl as [_ <-]. reflexivity.
Defined.

Lemma within_capacity_sample : within_capacity Sample.store.
Proof.
  intros k l Hl. unfold Sample.store in Hl. cbn [lots] in Hl.
  apply lookup_singleton_Some in Hl as [_ <-]. cbn. lia.
Defined.

Lemma session_life_cycle_witness :
  sessions Sample.booked !! 0 = Some Trace.the_booking
  ∧ ∃ s', sessions (run Sample.no_number Sample.no_date Trace.visit
                      Sample.booked) !! 0 = Some s'
          ∧ same_identity Trace.the_booking s'
          ∧ rtc transition booked (status s').
Proof.
  split; [reflexivity|].
  exact (session_life_cycle Sample.no_number Sample.no_date Trace.visit
           Sample.booked 0 Trace.the_booking eq_refl).
Defined.

Lemma lots_are_static_witness :
  lots (run Sample.no_number Sample.no_date Trace.busy Sample.store) !! 8
  = None
  ∧ ∃ l', lots (run Sample.no_number Sample.no_date Trace.busy Sample.store)
          !! 7 = Some l'
          ∧ totalSpots l' = 2%Z ∧ pricePerHour l' = 100%N.
Proof.
  destruct (lots_are_static Sample.no_number Sample.no_date Trace.busy
              Sample.store 8) as [Hnone _].
  destruct (lots_are_static Sample.no_number Sample.no_date Trace.busy
              Sample.store 7) as [_ Hsome].
  split; [apply Hnone; reflexivity|].
  destruct (Hsome Sample.lot eq_refl) as (l' & Hl' & _ & Ht & Hp & _).
  by exists l'.
Defined.

Lemma status_stays_synced_witness :
  status_synced Sample.store
  ∧ status_synced (run Sample.no_number Sample.no_date Trace.busy Sample.store).
Proof.
  split; [exact status_synced_sample|].
  exact (status_stays_synced Sample.no_number Sample.no_date Trace.busy
           Sample.store status_synced_sample).
Defined.

Lemma occupancy_conserved_witness :
  lots Sample.booked !! 7 = Some (mkLot "Durbar Marg" 2 2 "full" 100 "car")
  ∧ reserved Sample.booked 7 = 2%Z
  ∧ ∃ l', lots (run Sample.no_number Sample.no_date Trace.visit Sample.booked)
          !! 7 = Some l'
          ∧ (occupiedSpots l'
             - reserved (run Sample.no_number Sample.no_date Trace.visit
                           Sample.booked) 7
             = 2 - 2)%Z.
Proof.
  split; [reflexivity|]. split; [reflexivity|].
  exact (occupancy_conserved Sample.no_number Sample.no_date Trace.visit
           Sample.booked 7 (mkLot "Durbar Marg" 2 2 "full" 100 "car") eq_refl).
Defined.


Lemma cancelBooking_spec_witness :
  cancelBooking 2 0 600 Sample.booked = (Sample.booked, not_cancelable)
  ∧ occupancy (cancelBooking 1 0 600 Sample.booked).1 7 = Some 0%Z.
Proof.
  split.
  - apply (cancelBooking_spec 2 0 600%Z Sample.booked).
    intros s [= <-]. left. discriminate.
  - destruct (cancelBooking_spec 1 0 600%Z Sample.booked) as [_ Hdone].
    destruct (Hdone Trace.the_booking eq_refl eq_refl eq_refl)
      as (s' & n & _ & _ & _ & _ & _ & _ & _ & Hocc & _).
    exact Hocc.
Defined.

Lemma book_then_cancel_witness :
  succeeded (bookParking Sample.no_number Sample.no_date 1 Sample.booking 500
               Sample.store).2 = true
  ∧ lots (cancelBooking 1 0 600 Sample.booked).1 = lots Sample.store.
Proof.
  split; [reflexivity|].
  destruct (book_then_cancel Sample.no_number Sample.no_date 1 Sample.booking
              500%Z 600%Z Sample.store eq_refl) as (_ & _ & _ & Hsame).
  exact (Hsame status_synced_sample).
Defined.

Lemma capacity_is_kept_witness :
  within_capacity Sample.store
  ∧ within_capacity Sample.booked
  ∧ ¬ within_capacity (startSession 3 7 None 700 Sample.booked).1.
Proof.
  split; [exact within_capacity_sample|].
  split.
  - destruct (capacity_is_kept Sample.no_number Sample.no_date
                (BookParking 1 Sample.booking) 500%Z Sample.store
                within_capacity_sample) as [Hkept _].
    exact (Hkept I).
  - assert (Hb : within_capacity Sample.booked).
    { intros k l Hl.
      change (lots Sample.booked)
        with ({[ 7 := mkLot "Durbar Marg" 2 2 "full" 100 "car" ]}
              : gmap oid ParkingLot) in Hl.
      apply lookup_singleton_Some in Hl as [_ <-]. cbn. lia. }
    destruct (capacity_is_kept Sample.no_number Sample.no_date
                (CompleteSession 3) 700%Z Sample.booked Hb) as [_ Hstart].
    exact (Hstart 3 7 None (mkLot "Durbar Marg" 2 2 "full" 100 "car")
             eq_refl eq_refl eq_refl).
Defined.

Lemma one_active_session_kept_witness :
  one_active_each (startSession 1 7 None 2000000 Sample.parked).1
  ∧ ¬ one_active_each Sample.parked_twice.
Proof.
  assert (Hone : one_active_each Sample.parked).
  { intros i j si sj Hi%lookup_lt_Some Hj%lookup_lt_Some _ _ _.
    change (length (sessions Sample.parked)) with 1 in Hi, Hj. lia. }
  split.
  - destruct (one_active_session_kept Sample.no_number Sample.no_date
                (StartSession 1 7 None) 2000000%Z Sample.parked)
      as [Hkept _].
    exact (Hkept Hone I).
  - destruct (one_active_session_kept Sample.no_number Sample.no_date
                (GuardEntry 1 7) 2000000%Z Sample.parked) as [_ Hbroken].
    apply (Hbroken 1 7 0 Trace.the_walk_in eq_refl). by split.
Defined.

Lemma getActiveSession_agrees_witness :
  getActiveSession 1 Sample.parked
  = Some (0, Trace.the_walk_in, Some Trace.the_lot_parked)
  ∧ res_data (completeSession 1 3700000 Sample.parked).2
    = Some (0, settle 3700000 (IntNum 100) Trace.the_walk_in)
  ∧ res_code (completeSession 2 3700000 Sample.parked).2 = Some 404.
Proof.
  split; [reflexivity|]. split.
  - destruct (getActiveSession_agrees 1 3700000%Z Sample.parked)
      as (_ & _ & Hsome & _).
    destruct (Hsome 0 Trace.the_walk_in Trace.the_lot_parked eq_refl)
      as (_ & _ & _ & Hdata).
    exact Hdata.
  - apply (getActiveSession_agrees 2 3700000%Z Sample.parked). reflexivity.
Defined.

Lemma guardExit_agrees_with_completeSession_witness :
  getActiveSession 1 Sample.parked
  = Some (0, Trace.the_walk_in, Some Trace.the_lot_parked)
  ∧ sessions (guardExit 1 7 3700000 Sample.parked).1
    = sessions (completeSession 1 3700000 Sample.parked).1
  ∧ lots (guardExit 1 7 3700000 Sample.parked).1
    = lots (completeSession 1 3700000 Sample.parked).1.
Proof.
  split; [reflexivity|].
  destruct (guardExit_agrees_with_completeSession 1 7 3700000%Z Sample.parked
              0 Trace.the_walk_in (Some Trace.the_lot_parked)
              eq_refl eq_refl) as (Hs & Hl & _).
  by split.
Defined.

Lemma billing_boundaries_witness :
  computeCharge (DateMs 3600000) (DateMs 0) 100 = IntNum 100
  ∧ computeCharge (DateMs 3600001) (DateMs 0) 100 = IntNum 200
  ∧ computeCharge (DateMs 0) (DateMs 5000) 100 = IntNum 100.
Proof.
  split_and!.
  - apply (billing_boundaries 3600000 0 100). lia.
  - destruct (billing_boundaries 3600001 0 100) as (_ & Hk & _).
    apply (Hk 1%Z); lia.
  - apply (billing_boundaries 0 5000 100). lia.
Defined.

Lemma settlement_releases_witness :
  res_data Sample.settled.2
  = Some (0, settle 3700000 (IntNum 100) Trace.the_walk_in)
  ∧ occupancy Sample.settled.1 7 = Some 0%Z.
Proof.
  split; [reflexivity|].
  destruct (settlement_releases 1 7 3700000%Z Sample.parked Sample.settled
              None 0 (settle 3700000 (IntNum 100) Trace.the_walk_in)
              (or_intror eq_refl) eq_refl)
    as (s & Hs & _ & _ & _ & _ & _ & _ & _ & _ & Hocc & _).
  injection Hs as <-. exact Hocc.
Defined.

Lemma guardEntry_then_guardExit_witness :
  res_code (guardExit 1 7 9000000 (guardEntry 1 7 2000000 Sample.store).1).2
  = Some 200
  ∧ guardExit 1 99 9000000 (guardEntry 1 99 2000000 Sample.store).1
    = ((guardEntry 1 99 2000000 Sample.store).1, NextError null_deref).
Proof.
  split.
  - apply (guardEntry_then_guardExit 1 7 2000000%Z 9000000%Z Sample.store).
    by eexists.
  - apply (guardEntry_then_guardExit 1 99 2000000%Z 9000000%Z Sample.store).
    reflexivity.
Defined.
